(** * wah: the WebSocket connection manager, the message router and the
    client facade, embedded from [src/connection/WebSocketConnection.ts],
    [src/router/WebSocketRouter.ts] and [src/WebSocketClient.ts].

    JavaScript numbers that carry delays are exact rationals ([Q]); counters
    and indices are [nat].  The [ws] socket, the timers of the event loop and
    the object heap are explicit stores of the world, so that stale sockets,
    live timers and aliased arrays can be talked about.  Base addresses are
    taken to be parseable, so that [new URL(base)] in [buildUrl] succeeds. *)

From Stdlib Require Import ZArith QArith Qround Qminmax Qpower Lia.
From stdpp Require Import base option list gmap strings.

Local Open Scope nat_scope.

(** ** Values crossing the boundary *)

Definition Buffer := list Byte.byte.
Definition JsError := string.

(** A call into a library either returns or throws. *)
Inductive Completion (A : Type) : Type :=
| Normal (a : A)
| Abrupt (e : JsError).
Arguments Normal {A} a.
Arguments Abrupt {A} e.

(** [string | number | boolean], the values of [queryParams]. *)
Inductive Scalar :=
| SStr (s : string)
| SNum (q : Q)
| SBool (b : bool).

(** The address handed to [new WebSocket]: the base (which is [undefined]
    when [services[serviceIndex]] is out of range) with the overlay that
    [buildUrl] writes into its search parameters. *)
Record Url := { urlBase : option string; urlParams : gmap string Scalar }.

(** Elements of an array payload, as [Buffer.concat] tells them apart. *)
Inductive Chunk :=
| ChunkBuffer (b : Buffer)
| ChunkUint8Array (b : Buffer)
| ChunkOther.

(** The run-time shapes of the [data] of a ["message"] event. *)
Inductive WsData :=
| DString (s : string)
| DBuffer (b : Buffer)
| DArrayBuffer (b : Buffer)
| DArray (chunks : list Chunk)
| DOther.

(** [string | Buffer], the argument of [send]. *)
Inductive SendData :=
| SendString (s : string)
| SendBuffer (b : Buffer).

Inductive LogLevel := DEBUG | INFO | WARN | ERROR.

(** ** The [ws] socket and the timers of the event loop *)

Inductive ReadyState := CONNECTING | OPEN | CLOSING | CLOSED.

Inductive ConnectionState := connecting | connected | closing | closed.

#[global] Instance ReadyState_eq_dec : EqDecision ReadyState.
Proof. solve_decision. Defined.
#[global] Instance ConnectionState_eq_dec : EqDecision ConnectionState.
Proof. solve_decision. Defined.

Record Socket := {
  readyState : ReadyState;
  hasListeners : bool;
  sockUrl : Url }.

Inductive TimerKind := Interval | Timeout.

Record Timer := { timerKind : TimerKind; timerDelay : Q; timerLive : bool }.

(** What the libraries decide: whether the [WebSocket] constructor, [send]
    and [ping] throw, and how bytes decode to text. *)
Record Env := {
  wsCtorThrows : Url -> option JsError;
  wsSendThrows : SendData -> option JsError;
  wsPingThrows : option JsError;
  utf8Decode : Buffer -> string }.

(** ** Connection state *)

Record ReconnectOptions := {
  initialDelay : Q;
  maxDelay : Q;
  backoffFactor : Q;
  maxAttempts : nat;
  maxServiceCycles : nat }.

Record Conn := {
  services : nat;
  queryParams : gmap string Scalar;
  reconnectConfig : ReconnectOptions;
  pingInterval : Q;
  ws : option nat;
  pingTimer : option nat;
  reconnectTimer : option nat;
  serviceIndex : nat;
  reconnectAttempts : nat;
  serviceCycles : nat;
  isConnecting : bool;
  shouldReconnect : bool;
  messageCount : nat;
  lastMessageTime : Z }.

(** The object returned by [getConnectionInfo]; [allServices] is a
    reference to an array of the heap. *)
Record ConnectionInfo := {
  info_state : ConnectionState;
  info_currentService : Url;
  info_serviceIndex : nat;
  info_allServices : nat;
  info_reconnectAttempts : nat;
  info_serviceCycles : nat;
  info_messageCount : nat;
  info_lastMessageTime : Z }.

Inductive Obj :=
| OArr (xs : list string)
| OInfo (i : ConnectionInfo).

Inductive ConnEvent :=
| EvtOpen
| EvtClose (code : Z) (reason : string)
| EvtError (error : JsError)
| EvtMessage (data : WsData)
| EvtReconnecting (attempt maxAttempts_ : nat) (delay : Z) (service : Url)
| EvtServiceSwitched (from to : option string) (cycle : nat).

Inductive Effect :=
| ELog (level : LogLevel) (message : string)
| ENewWebSocket (url : Url)
| EWsSend (id : nat) (data : SendData)
| EWsPing (id : nat)
| EWsClose (id : nat)
| EEmit (ev : ConnEvent).

Record World := {
  conn : Conn;
  socks : list Socket;
  timers : list Timer;
  heap : list Obj;
  trace : list Effect;
  env : Env }.

Definition set_queryParams v (c : Conn) : Conn :=
  {| services := services c; queryParams := v; reconnectConfig := reconnectConfig c; pingInterval := pingInterval c; ws := ws c; pingTimer := pingTimer c; reconnectTimer := reconnectTimer c; serviceIndex := serviceIndex c; reconnectAttempts := reconnectAttempts c; serviceCycles := serviceCycles c; isConnecting := isConnecting c; shouldReconnect := shouldReconnect c; messageCount := messageCount c; lastMessageTime := lastMessageTime c |}.
Definition set_ws v (c : Conn) : Conn :=
  {| services := services c; queryParams := queryParams c; reconnectConfig := reconnectConfig c; pingInterval := pingInterval c; ws := v; pingTimer := pingTimer c; reconnectTimer := reconnectTimer c; serviceIndex := serviceIndex c; reconnectAttempts := reconnectAttempts c; serviceCycles := serviceCycles c; isConnecting := isConnecting c; shouldReconnect := shouldReconnect c; messageCount := messageCount c; lastMessageTime := lastMessageTime c |}.
Definition set_pingTimer v (c : Conn) : Conn :=
  {| services := services c; queryParams := queryParams c; reconnectConfig := reconnectConfig c; pingInterval := pingInterval c; ws := ws c; pingTimer := v; reconnectTimer := reconnectTimer c; serviceIndex := serviceIndex c; reconnectAttempts := reconnectAttempts c; serviceCycles := serviceCycles c; isConnecting := isConnecting c; shouldReconnect := shouldReconnect c; messageCount := messageCount c; lastMessageTime := lastMessageTime c |}.
Definition set_reconnectTimer v (c : Conn) : Conn :=
  {| services := services c; queryParams := queryParams c; reconnectConfig := reconnectConfig c; pingInterval := pingInterval c; ws := ws c; pingTimer := pingTimer c; reconnectTimer := v; serviceIndex := serviceIndex c; reconnectAttempts := reconnectAttempts c; serviceCycles := serviceCycles c; isConnecting := isConnecting c; shouldReconnect := shouldReconnect c; messageCount := messageCount c; lastMessageTime := lastMessageTime c |}.
Definition set_serviceIndex v (c : Conn) : Conn :=
  {| services := services c; queryParams := queryParams c; reconnectConfig := reconnectConfig c; pingInterval := pingInterval c; ws := ws c; pingTimer := pingTimer c; reconnectTimer := reconnectTimer c; serviceIndex := v; reconnectAttempts := reconnectAttempts c; serviceCycles := serviceCycles c; isConnecting := isConnecting c; shouldReconnect := shouldReconnect c; messageCount := messageCount c; lastMessageTime := lastMessageTime c |}.
Definition set_reconnectAttempts v (c : Conn) : Conn :=
  {| services := services c; queryParams := queryParams c; reconnectConfig := reconnectConfig c; pingInterval := pingInterval c; ws := ws c; pingTimer := pingTimer c; reconnectTimer := reconnectTimer c; serviceIndex := serviceIndex c; reconnectAttempts := v; serviceCycles := serviceCycles c; isConnecting := isConnecting c; shouldReconnect := shouldReconnect c; messageCount := messageCount c; lastMessageTime := lastMessageTime c |}.
Definition set_serviceCycles v (c : Conn) : Conn :=
  {| services := services c; queryParams := queryParams c; reconnectConfig := reconnectConfig c; pingInterval := pingInterval c; ws := ws c; pingTimer := pingTimer c; reconnectTimer := reconnectTimer c; serviceIndex := serviceIndex c; reconnectAttempts := reconnectAttempts c; serviceCycles := v; isConnecting := isConnecting c; shouldReconnect := shouldReconnect c; messageCount := messageCount c; lastMessageTime := lastMessageTime c |}.
Definition set_isConnecting v (c : Conn) : Conn :=
  {| services := services c; queryParams := queryParams c; reconnectConfig := reconnectConfig c; pingInterval := pingInterval c; ws := ws c; pingTimer := pingTimer c; reconnectTimer := reconnectTimer c; serviceIndex := serviceIndex c; reconnectAttempts := reconnectAttempts c; serviceCycles := serviceCycles c; isConnecting := v; shouldReconnect := shouldReconnect c; messageCount := messageCount c; lastMessageTime := lastMessageTime c |}.
Definition set_shouldReconnect v (c : Conn) : Conn :=
  {| services := services c; queryParams := queryParams c; reconnectConfig := reconnectConfig c; pingInterval := pingInterval c; ws := ws c; pingTimer := pingTimer c; reconnectTimer := reconnectTimer c; serviceIndex := serviceIndex c; reconnectAttempts := reconnectAttempts c; serviceCycles := serviceCycles c; isConnecting := isConnecting c; shouldReconnect := v; messageCount := messageCount c; lastMessageTime := lastMessageTime c |}.
Definition set_messageCount v (c : Conn) : Conn :=
  {| services := services c; queryParams := queryParams c; reconnectConfig := reconnectConfig c; pingInterval := pingInterval c; ws := ws c; pingTimer := pingTimer c; reconnectTimer := reconnectTimer c; serviceIndex := serviceIndex c; reconnectAttempts := reconnectAttempts c; serviceCycles := serviceCycles c; isConnecting := isConnecting c; shouldReconnect := shouldReconnect c; messageCount := v; lastMessageTime := lastMessageTime c |}.
Definition set_lastMessageTime v (c : Conn) : Conn :=
  {| services := services c; queryParams := queryParams c; reconnectConfig := reconnectConfig c; pingInterval := pingInterval c; ws := ws c; pingTimer := pingTimer c; reconnectTimer := reconnectTimer c; serviceIndex := serviceIndex c; reconnectAttempts := reconnectAttempts c; serviceCycles := serviceCycles c; isConnecting := isConnecting c; shouldReconnect := shouldReconnect c; messageCount := messageCount c; lastMessageTime := v |}.
Definition with_conn v (w : World) : World :=
  {| conn := v; socks := socks w; timers := timers w; heap := heap w; trace := trace w; env := env w |}.
Definition with_socks v (w : World) : World :=
  {| conn := conn w; socks := v; timers := timers w; heap := heap w; trace := trace w; env := env w |}.
Definition with_timers v (w : World) : World :=
  {| conn := conn w; socks := socks w; timers := v; heap := heap w; trace := trace w; env := env w |}.
Definition with_heap v (w : World) : World :=
  {| conn := conn w; socks := socks w; timers := timers w; heap := v; trace := trace w; env := env w |}.
Definition with_trace v (w : World) : World :=
  {| conn := conn w; socks := socks w; timers := timers w; heap := heap w; trace := v; env := env w |}.
Definition upd (f : Conn -> Conn) (w : World) : World := with_conn (f (conn w)) w.

Definition effect (e : Effect) (w : World) : World := with_trace (trace w ++ [e]) w.
Definition log (level : LogLevel) (message : string) : World -> World :=
  effect (ELog level message).
Definition emit (ev : ConnEvent) : World -> World := effect (EEmit ev).

(** ** The [ws] library and the event loop, as the manager uses them *)

Definition set_readyState (r : ReadyState) (s : Socket) : Socket :=
  {| readyState := r; hasListeners := hasListeners s; sockUrl := sockUrl s |}.
Definition set_hasListeners (b : bool) (s : Socket) : Socket :=
  {| readyState := readyState s; hasListeners := b; sockUrl := sockUrl s |}.
Definition set_timerLive (b : bool) (t : Timer) : Timer :=
  {| timerKind := timerKind t; timerDelay := timerDelay t; timerLive := b |}.

Definition updSock (id : nat) (f : Socket -> Socket) (w : World) : World :=
  match socks w !! id with
  | Some s => with_socks (<[id := f s]> (socks w)) w
  | None => w
  end.

Definition sockState (id : nat) (w : World) : ReadyState :=
  match socks w !! id with
  | Some s => readyState s
  | None => CLOSED
  end.

(** [ws.close()] without arguments: a socket that is connecting or open
    starts closing, a closing or closed one stays as it is; it does not throw. *)
Definition closing_of (r : ReadyState) : ReadyState :=
  match r with
  | CONNECTING | OPEN => CLOSING
  | r => r
  end.

Definition wsClose (id : nat) (w : World) : World :=
  updSock id (fun s => set_readyState (closing_of (readyState s)) s)
          (effect (EWsClose id) w).

Definition removeAllListeners (id : nat) : World -> World :=
  updSock id (set_hasListeners false).

(** [clearTimeout] and [clearInterval]. *)
Definition clearTimer (id : nat) (w : World) : World :=
  match timers w !! id with
  | Some t => with_timers (<[id := set_timerLive false t]> (timers w)) w
  | None => w
  end.

(** [setTimeout] and [setInterval]: the new handle is the next index. *)
Definition newTimer (k : TimerKind) (delay : Q) (w : World) : nat * World :=
  (length (timers w),
   with_timers (timers w ++ [{| timerKind := k; timerDelay := delay; timerLive := true |}]) w).

(** ** [WebSocketConnection] *)

Definition getServices (w : World) : list string :=
  match heap w !! services (conn w) with
  | Some (OArr xs) => xs
  | _ => []
  end.

Definition getState (w : World) : ConnectionState :=
  match ws (conn w) with
  | None => closed
  | Some id =>
      match sockState id w with
      | CONNECTING => connecting
      | OPEN => connected
      | CLOSING => closing
      | CLOSED => closed
      end
  end.

Definition buildUrl (base : option string) (w : World) : Url :=
  if decide (size (queryParams (conn w)) = 0)
  then {| urlBase := base; urlParams := ∅ |}
  else {| urlBase := base; urlParams := queryParams (conn w) |}.

Definition getCurrentServiceUrl (w : World) : Url :=
  buildUrl (getServices w !! serviceIndex (conn w)) w.

Definition stopHeartbeat (w : World) : World :=
  match pingTimer (conn w) with
  | Some id => upd (set_pingTimer None) (clearTimer id w)
  | None => w
  end.

Definition clearReconnectTimer (w : World) : World :=
  match reconnectTimer (conn w) with
  | Some id => upd (set_reconnectTimer None) (clearTimer id w)
  | None => w
  end.

Definition startHeartbeat (w : World) : World :=
  let w := stopHeartbeat w in
  let '(id, w) := newTimer Interval (pingInterval (conn w)) w in
  upd (set_pingTimer (Some id)) w.

Definition cleanup (w : World) : World :=
  let w :=
    match ws (conn w) with
    | Some id =>
        let w := removeAllListeners id w in
        let w :=
          match sockState id w with
          | OPEN | CONNECTING => wsClose id w
          | _ => w
          end in
        upd (set_ws None) w
    | None => w
    end in
  clearReconnectTimer w.

Definition canTryNextService (w : World) : bool :=
  (1 <? length (getServices w)) &&
  (serviceCycles (conn w) <? maxServiceCycles (reconnectConfig (conn w))).

(** [Math.round]: the nearest integer, ties upwards. *)
Definition Math_round (q : Q) : Z := Qfloor (q + (1 # 2)).

(** [Math.min(initialDelay * Math.pow(backoffFactor, attempts - 1), maxDelay)]. *)
Definition backoffDelay (rc : ReconnectOptions) (attempts : nat) : Q :=
  Qmin (initialDelay rc * backoffFactor rc ^ Z.of_nat (attempts - 1)) (maxDelay rc).

(** [moveToNextService] and [scheduleReconnect] call back into [run]; the
    recursion is opened here and tied in [run]. *)
Definition moveToNextService (run : World -> option World) (w : World) : option World :=
  let previousIndex := serviceIndex (conn w) in
  let w := upd (set_serviceIndex
                  ((serviceIndex (conn w) + 1) mod length (getServices w))) w in
  let w := if decide (serviceIndex (conn w) = 0)
           then upd (set_serviceCycles (S (serviceCycles (conn w)))) w
           else w in
  let w := upd (set_reconnectAttempts 0) w in
  let from := getServices w !! previousIndex in
  let to := getServices w !! serviceIndex (conn w) in
  let w := log INFO "Switching service" w in
  let w := emit (EvtServiceSwitched from to (serviceCycles (conn w))) w in
  run (cleanup w).

Definition scheduleReconnect (run : World -> option World) (w : World) : option World :=
  let w := upd (set_reconnectAttempts (S (reconnectAttempts (conn w)))) w in
  let rc := reconnectConfig (conn w) in
  if maxAttempts rc <=? reconnectAttempts (conn w) then
    if canTryNextService w then moveToNextService run w
    else Some (log ERROR "All services exhausted" w)
  else
    let delay := backoffDelay rc (reconnectAttempts (conn w)) in
    let w := log INFO "Scheduling reconnection" w in
    let w := emit (EvtReconnecting (reconnectAttempts (conn w)) (maxAttempts rc)
                     (Math_round delay) (getCurrentServiceUrl w)) w in
    let w := clearReconnectTimer w in
    let '(id, w) := newTimer Timeout delay w in
    Some (upd (set_reconnectTimer (Some id)) w).

(** [new WebSocket(url)] followed by the four [on] registrations. *)
Definition newWebSocket (url : Url) (w : World) : Completion nat * World :=
  let w := effect (ENewWebSocket url) w in
  match wsCtorThrows (env w) url with
  | Some e => (Abrupt e, w)
  | None =>
      (Normal (length (socks w)),
       with_socks (socks w ++ [{| readyState := CONNECTING;
                                  hasListeners := true;
                                  sockUrl := url |}]) w)
  end.

(** [run], by fuel: one unit per nested call, [None] when it runs out. *)
Fixpoint run (fuel : nat) (w : World) : option World :=
  match fuel with
  | 0 => None
  | S fuel' =>
      if isConnecting (conn w) then Some w
      else
        let w := upd (set_isConnecting true) w in
        let serviceUrl := getCurrentServiceUrl w in
        let w := log INFO "Connecting to WebSocket" w in
        match newWebSocket serviceUrl w with
        | (Normal id, w) => Some (upd (set_ws (Some id)) w)
        | (Abrupt e, w) =>
            let w := log ERROR "Error creating WebSocket" w in
            let w := upd (set_isConnecting false) w in
            if shouldReconnect (conn w) then scheduleReconnect (run fuel') w
            else Some w
        end
  end.

(** The number of service switches still allowed from a state; every nested
    call of [run] goes through one. *)
Definition movesLeft (w : World) : nat :=
  let E := length (getServices w) in
  let C := maxServiceCycles (reconnectConfig (conn w)) in
  if (1 <? E) && (serviceCycles (conn w) <? C)
  then (C - serviceCycles (conn w)) * E - serviceIndex (conn w) mod E
  else 0.

(** The calls as the event loop makes them, with the fuel that always
    suffices ([run_enough_fuel] and [scheduleReconnect_enough_fuel]). *)
Definition run_ (w : World) : World :=
  default w (run (S (movesLeft w)) w).

Definition scheduleReconnect_ (w : World) : World :=
  default w (scheduleReconnect (run (movesLeft w)) w).

Definition connect (w : World) : World :=
  if isConnecting (conn w) || bool_decide (getState w = connected)
  then log DEBUG "Connect called but already connecting/connected" w
  else run_ (upd (set_shouldReconnect true) w).

Definition close (w : World) : World :=
  let w := upd (set_shouldReconnect false) w in
  let w := stopHeartbeat w in
  let w := clearReconnectTimer w in
  match ws (conn w) with
  | Some id => wsClose id w
  | None => w
  end.

Definition send (data : SendData) (w : World) : bool * World :=
  match ws (conn w) with
  | Some id =>
      match sockState id w with
      | OPEN =>
          match wsSendThrows (env w) data with
          | None => (true, effect (EWsSend id data) w)
          | Some error => (false, log ERROR "Error sending data" w)
          end
      | _ => (false, log DEBUG "Cannot send: WebSocket not connected" w)
      end
  | None => (false, log DEBUG "Cannot send: WebSocket not connected" w)
  end.

(** [{ ...this.queryParams, ...params }]: the keys of [params] win. *)
Definition updateParams (params : gmap string Scalar) (w : World) : World :=
  let w := upd (set_queryParams (params ∪ queryParams (conn w))) w in
  let w := log INFO "Query params updated, reconnecting" w in
  let w := cleanup w in
  let w := upd (set_reconnectAttempts 0) w in
  let w := upd (set_serviceCycles 0) w in
  run_ w.

Definition alloc (o : Obj) (w : World) : nat * World :=
  (length (heap w), with_heap (heap w ++ [o]) w).

(** [getConnectionInfo] returns a reference to a new object whose
    [allServices] is a new array, [[...this.services]]. *)
Definition getConnectionInfo (w : World) : nat * World :=
  let state := getState w in
  let currentService := getCurrentServiceUrl w in
  let '(copy, w1) := alloc (OArr (getServices w)) w in
  alloc (OInfo {| info_state := state;
                  info_currentService := currentService;
                  info_serviceIndex := serviceIndex (conn w);
                  info_allServices := copy;
                  info_reconnectAttempts := reconnectAttempts (conn w);
                  info_serviceCycles := serviceCycles (conn w);
                  info_messageCount := messageCount (conn w);
                  info_lastMessageTime := lastMessageTime (conn w) |}) w1.

(** *** The listeners that [run] registers on the socket *)

Definition onOpen (w : World) : World :=
  let w := upd (set_isConnecting false) w in
  let w := upd (set_reconnectAttempts 0) w in
  let w := upd (set_serviceCycles 0) w in
  let w := startHeartbeat w in
  let w := log INFO "WebSocket connected" w in
  emit EvtOpen w.

Definition onMessage (data : WsData) (now : Z) (w : World) : World :=
  let w := upd (set_messageCount (S (messageCount (conn w)))) w in
  let w := upd (set_lastMessageTime now) w in
  emit (EvtMessage data) w.

Definition onError (error : JsError) (w : World) : World :=
  let w := log ERROR "WebSocket error" w in
  let w := upd (set_isConnecting false) w in
  emit (EvtError error) w.

Definition onClose (code : Z) (reason : Buffer) (w : World) : World :=
  let reasonStr := utf8Decode (env w) reason in
  let w := log INFO "WebSocket disconnected" w in
  let w := upd (set_isConnecting false) w in
  let w := stopHeartbeat w in
  let w := emit (EvtClose code reasonStr) w in
  if shouldReconnect (conn w) then scheduleReconnect_ w else w.

(** The callback of [setInterval] in [startHeartbeat]. *)
Definition onPing (w : World) : World :=
  match ws (conn w) with
  | Some id =>
      match sockState id w with
      | OPEN =>
          match wsPingThrows (env w) with
          | None => effect (EWsPing id) w
          | Some error => log ERROR "Error sending ping" w
          end
      | _ => w
      end
  | None => w
  end.

(** The callback of [setTimeout] in [scheduleReconnect]. *)
Definition onReconnectTimer (w : World) : World := run_ (cleanup w).

(** ** What the environment does to the manager

    A socket emits ["open"] only while connecting, ["error"] and ["close"]
    only before it is closed (and it is closing when ["error"] is emitted),
    messages only once open; a timer fires only while live.  A socket whose
    listeners were removed changes state without calling the manager. *)

Inductive EnvEvent :=
| WsOpen (id : nat)
| WsMessage (id : nat) (data : WsData) (now : Z)
| WsError (id : nat) (error : JsError)
| WsClose (id : nat) (code : Z) (reason : Buffer)
| TimerFired (id : nat).

Definition listening (id : nat) (w : World) : bool :=
  match socks w !! id with
  | Some s => hasListeners s
  | None => false
  end.

Definition notify (id : nat) (handler : World -> World) (w : World) : World :=
  if listening id w then handler w else w.

Definition deliver (ev : EnvEvent) (w : World) : World :=
  match ev with
  | WsOpen id =>
      match sockState id w with
      | CONNECTING => notify id onOpen (updSock id (set_readyState OPEN) w)
      | _ => w
      end
  | WsMessage id data now =>
      match sockState id w with
      | OPEN | CLOSING => notify id (onMessage data now) w
      | _ => w
      end
  | WsError id error =>
      match sockState id w with
      | CLOSED => w
      | _ => notify id (onError error) (updSock id (set_readyState CLOSING) w)
      end
  | WsClose id code reason =>
      match sockState id w with
      | CLOSED => w
      | _ => notify id (onClose code reason) (updSock id (set_readyState CLOSED) w)
      end
  | TimerFired id =>
      match timers w !! id with
      | Some t =>
          if timerLive t then
            match timerKind t with
            | Timeout => onReconnectTimer (clearTimer id w)
            | Interval => onPing w
            end
          else w
      | None => w
      end
  end.

(** *** The constructor *)

Inductive ServiceOption :=
| OneService (s : string)
| ServiceArray (ref : nat).

Record ReconnectOptionsIn := {
  initialDelay_opt : option Q;
  maxDelay_opt : option Q;
  backoffFactor_opt : option Q;
  maxAttempts_opt : option nat;
  maxServiceCycles_opt : option nat }.

Record ConnectionOptions := {
  service : ServiceOption;
  queryParams_opt : option (gmap string Scalar);
  reconnect : option ReconnectOptionsIn;
  pingInterval_opt : option Q }.

Definition noReconnectOptions : ReconnectOptionsIn :=
  {| initialDelay_opt := None; maxDelay_opt := None; backoffFactor_opt := None;
     maxAttempts_opt := None; maxServiceCycles_opt := None |}.

(** [new WebSocketConnection(options, logger)] in a heap [h]: an array given
    as [service] is kept by reference, a single address gets a new array. *)
Definition newConnection (options : ConnectionOptions) (e : Env) (h : list Obj) : World :=
  let '(servicesRef, h) :=
    match service options with
    | ServiceArray ref => (ref, h)
    | OneService s => (length h, h ++ [OArr [s]])
    end in
  let rc := default noReconnectOptions (reconnect options) in
  {| conn := {| services := servicesRef;
                queryParams := default ∅ (queryParams_opt options);
                reconnectConfig :=
                  {| initialDelay := default 5000%Q (initialDelay_opt rc);
                     maxDelay := default 30000%Q (maxDelay_opt rc);
                     backoffFactor := default (3 # 2)%Q (backoffFactor_opt rc);
                     maxAttempts := default 3 (maxAttempts_opt rc);
                     maxServiceCycles := default 2 (maxServiceCycles_opt rc) |};
                pingInterval := default 10000%Q (pingInterval_opt options);
                ws := None;
                pingTimer := None;
                reconnectTimer := None;
                serviceIndex := 0;
                reconnectAttempts := 0;
                serviceCycles := 0;
                isConnecting := false;
                shouldReconnect := true;
                messageCount := 0;
                lastMessageTime := 0 |};
     socks := [];
     timers := [];
     heap := h;
     trace := [];
     env := e |}.

(** ** [WebSocketRouter] *)

#[local] Unset Elimination Schemes.
Inductive Json :=
| JNull
| JBool (b : bool)
| JNum (q : Q)
| JStr (s : string)
| JArr (items : list Json)
| JObj (members : list (string * Json)).
#[local] Set Elimination Schemes.

(** How a call of a handler completes: it returns (or its promise
    resolves), it throws, or the promise it returns rejects. *)
Inductive Outcome :=
| Fulfilled
| Thrown (e : JsError)
| Rejected (e : JsError).

(** The context given to a handler; [connection] is the reference returned
    by [getConnectionInfo] (the [send] closure is left out). *)
Record HandlerContext := {
  ctx_data : Json;
  ctx_rawData : string;
  ctx_connection : nat }.

(** [schema] is [safeParse]: [Some data] on success. *)
Record HandlerRegistration := {
  schema : Json -> option Json;
  handler : HandlerContext -> Outcome }.

Record HandlerError := {
  he_error : JsError;
  he_rawData : string;
  he_timestamp : Z }.

(** [RRoute] marks an entry into [route]; the others are what [route] does
    to the logger, the handlers and the listeners of ["error"]. *)
Inductive REffect :=
| RRoute (rawData : string)
| RLog (level : LogLevel) (message : string)
| RInvoke (index : nat) (ctx : HandlerContext)
| REmitError (he : HandlerError).

(** [errorEmitThrows]: [emit("error", ...)] throws, which an [EventEmitter]
    does when no listener is registered (or when a listener throws). *)
Record Router := {
  handlers : list HandlerRegistration;
  rtrace : list REffect;
  JSON_parse : string -> option Json;
  errorEmitThrows : bool }.

Definition reffect (e : REffect) (r : Router) : Router :=
  {| handlers := handlers r; rtrace := rtrace r ++ [e];
     JSON_parse := JSON_parse r; errorEmitThrows := errorEmitThrows r |}.

Definition rlog (level : LogLevel) (message : string) : Router -> Router :=
  reffect (RLog level message).

Definition register (registration : HandlerRegistration) (r : Router) : Router :=
  rlog DEBUG "Handler registered"
       {| handlers := handlers r ++ [registration]; rtrace := rtrace r;
          JSON_parse := JSON_parse r; errorEmitThrows := errorEmitThrows r |}.

Definition emitError (he : HandlerError) (r : Router) : Completion unit * Router :=
  let r := reffect (REmitError he) r in
  if errorEmitThrows r then (Abrupt "Unhandled error.", r) else (Normal tt, r).

(** The promise returned by [invokeHandler]: settled, or waiting for the
    rejection of the handler's promise to reach the [catch] block. *)
Inductive Promise :=
| Resolved
| RejectedWith (e : JsError)
| Awaiting (e : JsError).

(** The [catch] block of [invokeHandler]. *)
Definition handlerFailed (error : JsError) (rawData : string) (now : Z)
    (r : Router) : Promise * Router :=
  let r := rlog ERROR "Handler threw an error" r in
  match emitError {| he_error := error; he_rawData := rawData; he_timestamp := now |} r with
  | (Normal _, r) => (Resolved, r)
  | (Abrupt e, r) => (RejectedWith e, r)
  end.

(** [invokeHandler] up to its [await]: the handler is called at once. *)
Definition invokeHandler (index : nat) (registration : HandlerRegistration)
    (data : Json) (rawData : string) (connectionInfo : nat) (now : Z)
    (r : Router) : Promise * Router :=
  let ctx := {| ctx_data := data; ctx_rawData := rawData;
                ctx_connection := connectionInfo |} in
  let r := reffect (RInvoke index ctx) r in
  match handler registration ctx with
  | Fulfilled => (Resolved, r)
  | Thrown e => handlerFailed e rawData now r
  | Rejected e => (Awaiting e, r)
  end.

(** The [for] loop of [route] over the registrations from [index] on. *)
Fixpoint matchLoop (parsed : Json) (rawData : string) (connectionInfo : nat)
    (now : Z) (index : nat) (regs : list HandlerRegistration) (r : Router)
    : list Promise * Router :=
  match regs with
  | [] => ([], r)
  | registration :: regs =>
      match schema registration parsed with
      | Some data =>
          let '(p, r) := invokeHandler index registration data rawData connectionInfo now r in
          let '(ps, r) := matchLoop parsed rawData connectionInfo now (S index) regs r in
          (p :: ps, r)
      | None => matchLoop parsed rawData connectionInfo now (S index) regs r
      end
  end.

(** [Promise.allSettled]: the pending rejections reach their [catch]
    blocks, in the order of the list; nothing is thrown. *)
Fixpoint allSettled (rawData : string) (now : Z) (ps : list Promise) (r : Router)
    : list Promise * Router :=
  match ps with
  | [] => ([], r)
  | Awaiting e :: ps =>
      let '(p, r) := handlerFailed e rawData now r in
      let '(ps, r) := allSettled rawData now ps r in
      (p :: ps, r)
  | p :: ps =>
      let '(ps, r) := allSettled rawData now ps r in
      (p :: ps, r)
  end.

(** [route]: the completion is that of the promise it returns. *)
Definition route (rawData : string) (connectionInfo : nat) (now : Z) (r : Router)
    : Completion unit * Router :=
  let r := reffect (RRoute rawData) r in
  match JSON_parse r rawData with
  | None =>
      let r := rlog DEBUG "Failed to parse message as JSON" r in
      emitError {| he_error := "Failed to parse WebSocket message as JSON";
                   he_rawData := rawData; he_timestamp := now |} r
  | Some parsed =>
      let '(matched, r) := matchLoop parsed rawData connectionInfo now 0 (handlers r) r in
      if length matched =? 0
      then (Normal tt, rlog DEBUG "No handlers matched message" r)
      else
        let r := rlog DEBUG "Dispatching to matched handlers" r in
        let '(_, r) := allSettled rawData now matched r in
        (Normal tt, r)
  end.

(** ** [WebSocketClient] *)

Inductive ClientEffect :=
| CEmitOpen
| CEmitClose (code : Z) (reason : string)
| CEmitReconnecting (attempt maxAttempts_ : nat) (delay : Z) (service : Url)
| CEmitServiceSwitched (from to : option string) (cycle : nat)
| CEmitError (error : JsError)
| CEmitHandlerError (he : HandlerError)
| CLog (level : LogLevel) (message : string).

(** The client owns a connection (in its world) and a router.  The router's
    ["error"] listener is the client's forwarder, so the router's emit throws
    exactly when the client has no ["error"] listener of its own. *)
Record Client := {
  c_world : World;
  c_router : Router;
  c_hasErrorListener : bool;
  c_trace : list ClientEffect }.

Definition with_c_world (w : World) (c : Client) : Client :=
  {| c_world := w; c_router := c_router c;
     c_hasErrorListener := c_hasErrorListener c; c_trace := c_trace c |}.
Definition with_c_router (r : Router) (c : Client) : Client :=
  {| c_world := c_world c; c_router := r;
     c_hasErrorListener := c_hasErrorListener c; c_trace := c_trace c |}.
Definition ceffect (e : ClientEffect) (c : Client) : Client :=
  {| c_world := c_world c; c_router := c_router c;
     c_hasErrorListener := c_hasErrorListener c; c_trace := c_trace c ++ [e] |}.

Definition isBinary (c : Chunk) : bool :=
  match c with
  | ChunkBuffer _ | ChunkUint8Array _ => true
  | ChunkOther => false
  end.

Definition chunkBytes (c : Chunk) : Buffer :=
  match c with
  | ChunkBuffer b | ChunkUint8Array b => b
  | ChunkOther => []
  end.

(** [Buffer.concat(list)]: a [TypeError] unless every element is a [Buffer]
    or a [Uint8Array]. *)
Definition Buffer_concat (chunks : list Chunk) : Completion Buffer :=
  if forallb isBinary chunks
  then Normal (concat (map chunkBytes chunks))
  else Abrupt "TypeError [ERR_INVALID_ARG_TYPE]".

Definition toRawString (e : Env) (data : WsData) : Completion (option string) :=
  match data with
  | DString s => Normal (Some s)
  | DBuffer b => Normal (Some (utf8Decode e b))
  | DArrayBuffer b => Normal (Some (utf8Decode e b))
  | DArray chunks =>
      match Buffer_concat chunks with
      | Normal b => Normal (Some (utf8Decode e b))
      | Abrupt err => Abrupt err
      end
  | DOther => Normal None
  end.

(** The router's ["error"] events of a call reach the client's emitter. *)
Definition routerErrors (es : list REffect) : list ClientEffect :=
  omap (fun e => match e with
                 | REmitError he => Some (CEmitHandlerError he)
                 | _ => None
                 end) es.

(** The listener of the connection's ["message"] event in [wireEvents]. *)
Definition onConnectionMessage (data : WsData) (now : Z) (c : Client) : Completion Client :=
  match toRawString (env (c_world c)) data with
  | Abrupt err => Abrupt err
  | Normal None => Normal c
  | Normal (Some raw) =>
      let '(info, w) := getConnectionInfo (c_world c) in
      let c := with_c_world w c in
      let before := length (rtrace (c_router c)) in
      let '(result, r) := route raw info now (c_router c) in
      let c := with_c_router r c in
      let c := {| c_world := c_world c; c_router := c_router c;
                  c_hasErrorListener := c_hasErrorListener c;
                  c_trace := c_trace c ++ routerErrors (drop before (rtrace r)) |} in
      match result with
      | Normal _ => Normal c
      | Abrupt err => Normal (ceffect (CLog ERROR "Unexpected error in router.route") c)
      end
  end.

(** The listeners that [wireEvents] puts on the connection. *)
Definition clientListener (now : Z) (ev : ConnEvent) (c : Client) : Completion Client :=
  match ev with
  | EvtOpen => Normal (ceffect CEmitOpen c)
  | EvtClose code reason => Normal (ceffect (CEmitClose code reason) c)
  | EvtReconnecting a m d s => Normal (ceffect (CEmitReconnecting a m d s) c)
  | EvtServiceSwitched f t cy => Normal (ceffect (CEmitServiceSwitched f t cy) c)
  | EvtError error =>
      let c' := ceffect (CEmitError error) c in
      if c_hasErrorListener c then Normal c' else Abrupt error
  | EvtMessage data => onConnectionMessage data now c
  end.

Definition emittedBy (es : list Effect) : list ConnEvent :=
  omap (fun e => match e with EEmit ev => Some ev | _ => None end) es.

Fixpoint listeners (now : Z) (evs : list ConnEvent) (c : Client) : Completion Client :=
  match evs with
  | [] => Normal c
  | ev :: evs =>
      match clientListener now ev c with
      | Normal c => listeners now evs c
      | Abrupt err => Abrupt err
      end
  end.

(** An event of the environment reaches the connection, whose emitted
    events reach the client's listeners. *)
Definition clientDeliver (ev : EnvEvent) (now : Z) (c : Client) : Completion Client :=
  let w := deliver ev (c_world c) in
  listeners now (emittedBy (drop (length (trace (c_world c))) (trace w)))
            (with_c_world w c).

(** [new WebSocketClient(options)]. *)
Definition newClient (options : ConnectionOptions) (e : Env) (h : list Obj)
    (parse : string -> option Json) (hasErrorListener : bool) : Client :=
  {| c_world := newConnection options e h;
     c_router := {| handlers := []; rtrace := []; JSON_parse := parse;
                    errorEmitThrows := negb hasErrorListener |};
     c_hasErrorListener := hasErrorListener;
     c_trace := [] |}.

(** ** Sample configurations *)

Definition sampleEnv : Env :=
  {| wsCtorThrows := fun _ => None;
     wsSendThrows := fun _ => None;
     wsPingThrows := None;
     utf8Decode := String.string_of_list_byte |}.

Definition sampleOptions : ConnectionOptions :=
  {| service := OneService "wss://stream.example.com/v1";
     queryParams_opt := None;
     reconnect := None;
     pingInterval_opt := None |}.

Definition sampleWorld : World := newConnection sampleOptions sampleEnv [].

(** The transport handle, when there is one and it is open. *)
Definition transportOpen (w : World) : option nat :=
  match ws (conn w) with
  | Some id => if decide (sockState id w = OPEN) then Some id else None
  | None => None
  end.

(** The state in which [moveToNextService] calls [run], and the one in
    which [scheduleReconnect] returns when it sets the timer. *)
Definition afterSwitch (w : World) : World :=
  default w (moveToNextService Some w).

Definition afterSchedule (w : World) : World :=
  default w (scheduleReconnect (fun _ => None) w).

(** The state in which [run] calls the constructor, and the one in which it
    reaches its [catch] block. *)
Definition beforeCtor (w : World) : World :=
  log INFO "Connecting to WebSocket" (upd (set_isConnecting true) w).

Definition ctorFailed (w : World) : World :=
  upd (set_isConnecting false)
      (log ERROR "Error creating WebSocket"
           (effect (ENewWebSocket (getCurrentServiceUrl w)) (beforeCtor w))).

Definition ctorReturned (w : World) : World :=
  let url := getCurrentServiceUrl w in
  let w := effect (ENewWebSocket url) (beforeCtor w) in
  upd (set_ws (Some (length (socks w))))
      (with_socks (socks w ++ [{| readyState := CONNECTING; hasListeners := true;
                                  sockUrl := url |}]) w).

(** [this.reconnectAttempts++]. *)
Definition bumped (w : World) : World :=
  upd (set_reconnectAttempts (S (reconnectAttempts (conn w)))) w.

Definition attemptsExhausted (w : World) : bool :=
  maxAttempts (reconnectConfig (conn w)) <=? reconnectAttempts (conn w).

(** Reading a snapshot back from the heap. *)
Definition readInfo (ref : nat) (w : World) : option ConnectionInfo :=
  match heap w !! ref with
  | Some (OInfo i) => Some i
  | _ => None
  end.

Definition readArray (ref : nat) (w : World) : option (list string) :=
  match heap w !! ref with
  | Some (OArr xs) => Some xs
  | _ => None
  end.

(** The handler calls and the ["error"] events in a stretch of the
    router's trace. *)
Definition invocationsOf (es : list REffect) : list (nat * HandlerContext) :=
  omap (fun e => match e with RInvoke i ctx => Some (i, ctx) | _ => None end) es.

Definition errorsOf (es : list REffect) : list HandlerError :=
  omap (fun e => match e with REmitError he => Some he | _ => None end) es.

(** The error with which a call of a handler fails, if it does. *)
Definition failure (o : Outcome) : option JsError :=
  match o with
  | Fulfilled => None
  | Thrown e | Rejected e => Some e
  end.

(** The ["error"] event owed to the call [(i, ctx)] of the [i]-th handler. *)
Definition failureOf (regs : list HandlerRegistration) (rawData : string) (now : Z)
    (call : nat * HandlerContext) : option HandlerError :=
  registration ← regs !! call.1;
  e ← failure (handler registration call.2);
  Some {| he_error := e; he_rawData := rawData; he_timestamp := now |}.

(** A open connection for the examples. *)
Definition sampleOpen : World := deliver (WsOpen 0) (connect sampleWorld).

(** The context [invokeHandler] builds for validated [data]. *)
Definition contextOf (rawData : string) (connectionInfo : nat) (data : Json)
    : HandlerContext :=
  {| ctx_data := data; ctx_rawData := rawData; ctx_connection := connectionInfo |}.

(** The registrations from [index] on whose schema accepts [parsed], with
    their positions and contexts. *)
Fixpoint accepted (parsed : Json) (rawData : string) (connectionInfo : nat)
    (index : nat) (regs : list HandlerRegistration)
    : list (nat * HandlerRegistration * HandlerContext) :=
  match regs with
  | [] => []
  | registration :: regs =>
      match schema registration parsed with
      | Some data =>
          (index, registration, contextOf rawData connectionInfo data)
          :: accepted parsed rawData connectionInfo (S index) regs
      | None => accepted parsed rawData connectionInfo (S index) regs
      end
  end.

Definition errorOf (rawData : string) (now : Z) (e : JsError) : HandlerError :=
  {| he_error := e; he_rawData := rawData; he_timestamp := now |}.

Definition thrownOf (c : nat * HandlerRegistration * HandlerContext) : option JsError :=
  match handler c.1.2 c.2 with
  | Thrown e => Some e
  | _ => None
  end.

Definition rejectedOf (c : nat * HandlerRegistration * HandlerContext) : option JsError :=
  match handler c.1.2 c.2 with
  | Rejected e => Some e
  | _ => None
  end.

Definition awaited (ps : list Promise) : list JsError :=
  omap (fun p => match p with Awaiting e => Some e | _ => None end) ps.

(** A router for the examples: two schemas on strings, one on numbers; the
    second handler throws. *)
Definition sampleParse (s : string) : option Json :=
  if decide (s = "hello") then Some (JStr s) else None.

Definition isStr (v : Json) : option Json :=
  match v with JStr _ => Some v | _ => None end.

Definition isNum (v : Json) : option Json :=
  match v with JNum _ => Some v | _ => None end.

Definition sampleRouter : Router :=
  {| handlers := [ {| schema := isStr; handler := fun _ => Fulfilled |};
                   {| schema := isStr; handler := fun _ => Thrown "boom" |};
                   {| schema := isNum; handler := fun _ => Fulfilled |} ];
     rtrace := [];
     JSON_parse := sampleParse;
     errorEmitThrows := true |}.

(** ** Histories of a connection *)

(** A user of the library mutating an object it holds a reference to. *)
Definition heapWrite (ref : nat) (o : Obj) (w : World) : World :=
  with_heap (<[ref := o]> (heap w)) w.

(** What can happen to a connection: calls of its public methods, events
    of the environment, and writes of user code to the heap. *)
Inductive Action :=
| AConnect
| AClose
| ASend (data : SendData)
| AUpdateParams (params : gmap string Scalar)
| AGetConnectionInfo
| AEnv (ev : EnvEvent)
| AWrite (ref : nat) (o : Obj).

Definition act (a : Action) (w : World) : World :=
  match a with
  | AConnect => connect w
  | AClose => close w
  | ASend data => (send data w).2
  | AUpdateParams params => updateParams params w
  | AGetConnectionInfo => (getConnectionInfo w).2
  | AEnv ev => deliver ev w
  | AWrite ref o => heapWrite ref o w
  end.

Definition acts (l : list Action) (w : World) : World :=
  foldl (fun w a => act a w) w l.

(** The write of an action, if it is one. *)
Definition writesTo (a : Action) : option nat :=
  match a with
  | AWrite ref _ => Some ref
  | _ => None
  end.

(** No timer of the event loop is live. *)
Definition noLiveTimers (w : World) : bool :=
  forallb (fun t => negb (timerLive t)) (timers w).

(** Every live timer is held by [pingTimer] or by [reconnectTimer]. *)
Definition timersOwned (w : World) : Prop :=
  ∀ id t, timers w !! id = Some t → timerLive t = true →
          pingTimer (conn w) = Some id ∨ reconnectTimer (conn w) = Some id.

(** The effects by which the manager reconnects: a call of the
    constructor, and the two events that announce one. *)
Definition isReconnectEffect (e : Effect) : bool :=
  match e with
  | ENewWebSocket _ => true
  | EEmit (EvtReconnecting _ _ _ _) => true
  | EEmit (EvtServiceSwitched _ _ _) => true
  | _ => false
  end.

Definition isOpen (ev : EnvEvent) : bool :=
  match ev with
  | WsOpen _ => true
  | _ => false
  end.

(** What no method and no event changes, apart from [updateParams] (the
    overlay) and writes to the heap. *)
Definition static (w : World) :=
  (services (conn w), reconnectConfig (conn w), pingInterval (conn w), env w).

(** [w'] has the heap, the configuration and the overlay of [w]. *)
Definition framed (w w' : World) : Prop :=
  heap w' = heap w ∧ static w' = static w ∧
  queryParams (conn w') = queryParams (conn w).






(** User code writing to several objects in turn. *)
Definition heapWrites (l : list (nat * Obj)) (w : World) : World :=
  foldl (fun w x => heapWrite x.1 x.2 w) w l.

(** A connection on an array of three services that the caller keeps. *)
Definition threeServices : list Obj :=
  [OArr ["wss://primary.example.com/ws"; "wss://secondary.example.com/ws";
         "wss://fallback.example.com/ws"]].

Definition failoverOptions : ConnectionOptions :=
  {| service := ServiceArray 0;
     queryParams_opt := None;
     reconnect := Some {| initialDelay_opt := Some 2000%Q;
                          maxDelay_opt := None;
                          backoffFactor_opt := Some 2%Q;
                          maxAttempts_opt := Some 3;
                          maxServiceCycles_opt := Some 3 |};
     pingInterval_opt := None |}.

Definition failoverWorld : World := newConnection failoverOptions sampleEnv threeServices.

(** A string, a [Buffer], an [ArrayBuffer], or an array of [Buffer]s. *)
Definition isBufferChunk (c : Chunk) : bool :=
  match c with
  | ChunkBuffer _ => true
  | _ => false
  end.

Definition isTextOrBuffers (data : WsData) : bool :=
  match data with
  | DString _ | DBuffer _ | DArrayBuffer _ => true
  | DArray chunks => forallb isBufferChunk chunks
  | DOther => false
  end.

(** The client drops a message: its listener returns, the router is not
    entered and the client emits and logs nothing; the connection has
    counted the message and emitted only the ["message"] event. *)
Definition dropsSilently (id : nat) (data : WsData) (now : Z) (c : Client) : Prop :=
  ∃ c', clientDeliver (WsMessage id data now) now c = Normal c' ∧
        c_router c' = c_router c ∧ c_trace c' = c_trace c ∧
        trace (c_world c') = trace (c_world c) ++ [EEmit (EvtMessage data)] ∧
        messageCount (conn (c_world c')) = S (messageCount (conn (c_world c))).

Definition sampleClient : Client :=
  {| c_world := sampleOpen;
     c_router := {| handlers := handlers sampleRouter; rtrace := [];
                    JSON_parse := sampleParse; errorEmitThrows := false |};
     c_hasErrorListener := true;
     c_trace := [] |}.

(** [[new Uint8Array(...)]] holding the bytes of ["hello"]. *)
Definition typedArrayPayload : WsData :=
  DArray [ChunkUint8Array (String.list_byte_of_string "hello")].

(** The worlds a connection can be in: those a history leads to. *)
Definition reachable (w : World) : Prop :=
  ∃ options e h l, w = acts l (newConnection options e h).

Definition timerView (w : World) :=
  (timers w, pingTimer (conn w), reconnectTimer (conn w)).

(** The state [close] leaves behind as far as reconnection goes. *)
Definition settled (w : World) : Prop :=
  shouldReconnect (conn w) = false ∧ pingTimer (conn w) = None ∧
  reconnectTimer (conn w) = None ∧ noLiveTimers w = true.

(** A history in which [updateParams] opens a socket that then fails. *)
Definition failedUpdate : list Action :=
  [AUpdateParams ∅; AEnv (WsError 0 "ECONNREFUSED"); AEnv (WsClose 0 1006 [])].

(** ** Every attempt fails *)

(** The socket of the attempt in flight: the current one, while it
    connects and the manager listens to it. *)
Definition attemptInFlight (w : World) : option nat :=
  match ws (conn w) with
  | Some id =>
      if listening id w && bool_decide (sockState id w = CONNECTING)
      then Some id else None
  | None => None
  end.

(** The reconnect timer, while it waits. *)
Definition timerPending (w : World) : option nat :=
  match reconnectTimer (conn w) with
  | Some t =>
      match timers w !! t with
      | Some tm =>
          match timerKind tm with
          | Timeout => if timerLive tm then Some t else None
          | Interval => None
          end
      | None => None
      end
  | None => None
  end.

(** How a socket fails to open: the ["error"] and the ["close"] it emits. *)
Record Failure := { f_error : JsError; f_code : Z; f_reason : Buffer }.

(** One step of an environment in which no socket ever opens: the attempt
    in flight fails, or else the pending delay elapses. *)
Definition failStep (f : Failure) (w : World) : option World :=
  match attemptInFlight w with
  | Some id =>
      Some (deliver (WsClose id (f_code f) (f_reason f))
              (deliver (WsError id (f_error f)) w))
  | None =>
      match timerPending w with
      | Some t => Some (deliver (TimerFired t) w)
      | None => None
      end
  end.

Fixpoint failAll (f : Failure) (fuel : nat) (w : World) : World :=
  match fuel with
  | 0 => w
  | S fuel =>
      match failStep f w with
      | Some w' => failAll f fuel w'
      | None => w
      end
  end.

(** The calls of the constructor, the switches and the announced retries
    in a trace. *)
Definition isNew (e : Effect) : bool :=
  match e with ENewWebSocket _ => true | _ => false end.

Definition isSwitch (e : Effect) : bool :=
  match e with EEmit (EvtServiceSwitched _ _ _) => true | _ => false end.

Definition attemptsMade (es : list Effect) : nat := length (List.filter isNew es).

Definition switchesMade (es : list Effect) : nat := length (List.filter isSwitch es).

Definition retriesAnnounced (es : list Effect) : list (nat * nat * Z) :=
  omap (fun e => match e with
                 | EEmit (EvtReconnecting a m d _) => Some (a, m, d)
                 | _ => None
                 end) es.

(** The retries announced on one service from attempt [k] on. *)
Definition retriesFrom (rc : ReconnectOptions) (k : nat) : list (nat * nat * Z) :=
  map (fun j => (j, maxAttempts rc, Math_round (backoffDelay rc j)))
      (seq k (maxAttempts rc - k)).

(** Every live interval is the one in [pingTimer], every live timeout the
    one in [reconnectTimer]. *)
Definition timersByKind (w : World) : Prop :=
  ∀ id t, timers w !! id = Some t → timerLive t = true →
          match timerKind t with
          | Interval => pingTimer (conn w) = Some id
          | Timeout => reconnectTimer (conn w) = Some id
          end.

(** The manager listens to its current socket only, and that socket is
    connecting or closed. *)
Definition listensToCurrent (w : World) : Prop :=
  ∀ id s, socks w !! id = Some s → hasListeners s = true →
          ws (conn w) = Some id ∧
          (readyState s = CONNECTING ∨ readyState s = CLOSED).

Definition noneListens (w : World) : Prop :=
  ∀ id s, socks w !! id = Some s → hasListeners s = false.

(** The manager has given up: no timer is live and it listens to no
    socket that can still emit. *)
Definition givenUp (w : World) : Prop :=
  noLiveTimers w = true ∧
  ∀ id s, socks w !! id = Some s → hasListeners s = true → readyState s = CLOSED.

(** What is still to come while every attempt fails: constructor calls,
    switches and announced retries, from the counters of a state. *)
Definition waiting (w : World) : bool :=
  match attemptInFlight w, timerPending w with
  | None, None => false
  | _, _ => true
  end.

Definition owedAttempts (w : World) : nat :=
  let A := maxAttempts (reconnectConfig (conn w)) in
  let a := reconnectAttempts (conn w) in
  match attemptInFlight w with
  | Some _ => (A - S a) + A * movesLeft w
  | None => if waiting w then (A - a) + A * movesLeft w else 0
  end.

Definition owedSwitches (w : World) : nat :=
  if waiting w then movesLeft w else 0.

Definition owedRetries (w : World) : list (nat * nat * Z) :=
  let rc := reconnectConfig (conn w) in
  if waiting w
  then retriesFrom rc (S (reconnectAttempts (conn w)))
       ++ concat (replicate (movesLeft w) (retriesFrom rc 1))
  else [].

(** The states of a connection whose attempts all fail. *)
Definition failing (w : World) : Prop :=
  shouldReconnect (conn w) = true ∧ pingTimer (conn w) = None ∧
  timersByKind w ∧ listensToCurrent w ∧
  1 ≤ maxAttempts (reconnectConfig (conn w)) ∧
  match attemptInFlight w with
  | Some _ =>
      reconnectAttempts (conn w) < maxAttempts (reconnectConfig (conn w)) ∧
      reconnectTimer (conn w) = None ∧ isConnecting (conn w) = true
  | None =>
      isConnecting (conn w) = false ∧
      match timerPending w with
      | Some _ =>
          reconnectAttempts (conn w) < maxAttempts (reconnectConfig (conn w))
      | None => reconnectTimer (conn w) = None
      end
  end.

(** The state in which [run] is entered from the timer or after a switch. *)
Definition readyToRun (w : World) : Prop :=
  shouldReconnect (conn w) = true ∧ pingTimer (conn w) = None ∧
  timersByKind w ∧ noneListens w ∧
  1 ≤ maxAttempts (reconnectConfig (conn w)) ∧
  reconnectAttempts (conn w) < maxAttempts (reconnectConfig (conn w)) ∧
  ws (conn w) = None ∧ reconnectTimer (conn w) = None ∧
  isConnecting (conn w) = false.

(** The measure that every failing step lowers. *)
Definition failMeasure (w : World) : nat :=
  2 * owedAttempts w + match attemptInFlight w with Some _ => 1 | None => 0 end.

(** The three tallies of a trace. *)
Definition ledger (w : World) : nat * nat * list (nat * nat * Z) :=
  (attemptsMade (trace w), switchesMade (trace w), retriesAnnounced (trace w)).

(** The manager listens to no socket but its current one. *)
Definition onlyCurrent (w : World) : Prop :=
  ∀ id s, socks w !! id = Some s → hasListeners s = true → ws (conn w) = Some id.

(** The state in which the ["close"] listener of a failed attempt calls
    [scheduleReconnect]. *)
Definition closedAttempt (f : Failure) (id : nat) (w : World) : World :=
  emit (EvtClose (f_code f) (utf8Decode (env w) (f_reason f)))
    (upd (set_isConnecting false)
       (log INFO "WebSocket disconnected"
          (updSock id (set_readyState CLOSED)
             (onError (f_error f) (updSock id (set_readyState CLOSING) w))))).

(** The state in which [moveToNextService] calls [cleanup]. *)
Definition switching (w : World) : World :=
  let previousIndex := serviceIndex (conn w) in
  let w := upd (set_serviceIndex
                  ((serviceIndex (conn w) + 1) mod length (getServices w))) w in
  let w := if decide (serviceIndex (conn w) = 0)
           then upd (set_serviceCycles (S (serviceCycles (conn w)))) w
           else w in
  let w := upd (set_reconnectAttempts 0) w in
  let from := getServices w !! previousIndex in
  let to := getServices w !! serviceIndex (conn w) in
  let w := log INFO "Switching service" w in
  emit (EvtServiceSwitched from to (serviceCycles (conn w))) w.

(** [w'] owes what [w] owed: [k] more constructor calls on the current
    service (whose counter is [reconnectAttempts w]) and a full round on
    each service still to be switched to. *)
Definition accounts (k : nat) (w w' : World) : Prop :=
  let rc := reconnectConfig (conn w) in
  failing w' ∧ reconnectConfig (conn w') = rc ∧
  attemptsMade (trace w') + owedAttempts w'
  = attemptsMade (trace w) + k + maxAttempts rc * movesLeft w ∧
  switchesMade (trace w') + owedSwitches w' = switchesMade (trace w) + movesLeft w ∧
  retriesAnnounced (trace w') ++ owedRetries w'
  = retriesAnnounced (trace w) ++ retriesFrom rc (S (reconnectAttempts (conn w)))
    ++ concat (replicate (movesLeft w) (retriesFrom rc 1)) ∧
  attemptsMade (trace w) ≤ attemptsMade (trace w') ∧
  (is_Some (attemptInFlight w') → attemptsMade (trace w) < attemptsMade (trace w')).

(** The state in which [scheduleReconnect] is entered after a failure. *)
Definition readyToSchedule (w : World) : Prop :=
  shouldReconnect (conn w) = true ∧ pingTimer (conn w) = None ∧
  timersByKind w ∧ listensToCurrent w ∧ attemptInFlight w = None ∧
  1 ≤ maxAttempts (reconnectConfig (conn w)) ∧
  reconnectAttempts (conn w) < maxAttempts (reconnectConfig (conn w)) ∧
  reconnectTimer (conn w) = None ∧ isConnecting (conn w) = false.

(** The delay that the [k]-th retry on a service announces. *)
Definition announcedDelay (rc : ReconnectOptions) (k : nat) : Z :=
  Math_round (Qmin (initialDelay rc * backoffFactor rc ^ Z.of_nat (k - 1)) (maxDelay rc)).

(** A connection refused: the ["error"] and ["close"] of a socket that
    cannot reach its server. *)
Definition refused : Failure :=
  {| f_error := "connect ECONNREFUSED"; f_code := 1006; f_reason := [] |}.

(** * Properties *)

(** ** Frames: what the helpers leave alone *)

Ltac unfold_helpers :=
  unfold cleanup, startHeartbeat, stopHeartbeat, clearReconnectTimer, newTimer,
    removeAllListeners, wsClose, updSock, clearTimer, log, emit, effect, upd.

Ltac frame :=
  intros; unfold_helpers; simpl;
  repeat (match goal with
          | |- context [if ?b then _ else _] => destruct b
          end; simpl);
  repeat (case_match; simpl in *); try done.

Lemma cleanup_heap w : heap (cleanup w) = heap w.
Proof. frame. Qed.

Lemma cleanup_services_ref w : services (conn (cleanup w)) = services (conn w).
Proof. frame. Qed.

Lemma cleanup_services w : getServices (cleanup w) = getServices w.
Proof. unfold getServices. by rewrite cleanup_heap, cleanup_services_ref. Qed.

Lemma cleanup_serviceIndex w : serviceIndex (conn (cleanup w)) = serviceIndex (conn w).
Proof. frame. Qed.
Lemma cleanup_serviceCycles w : serviceCycles (conn (cleanup w)) = serviceCycles (conn w).
Proof. frame. Qed.
Lemma cleanup_reconnectAttempts w :
  reconnectAttempts (conn (cleanup w)) = reconnectAttempts (conn w).
Proof. frame. Qed.
Lemma cleanup_reconnectConfig w :
  reconnectConfig (conn (cleanup w)) = reconnectConfig (conn w).
Proof. frame. Qed.
Lemma cleanup_isConnecting w : isConnecting (conn (cleanup w)) = isConnecting (conn w).
Proof. frame. Qed.
Lemma cleanup_shouldReconnect w :
  shouldReconnect (conn (cleanup w)) = shouldReconnect (conn w).
Proof. frame. Qed.
Lemma cleanup_queryParams w : queryParams (conn (cleanup w)) = queryParams (conn w).
Proof. frame. Qed.
Lemma cleanup_env w : env (cleanup w) = env w.
Proof. frame. Qed.
Lemma cleanup_ws w : ws (conn (cleanup w)) = None.
Proof. frame. Qed.
Lemma cleanup_reconnectTimer w : reconnectTimer (conn (cleanup w)) = None.
Proof. frame. Qed.
Lemma cleanup_pingTimer w : pingTimer (conn (cleanup w)) = pingTimer (conn w).
Proof. frame. Qed.

Lemma movesLeft_cleanup w : movesLeft (cleanup w) = movesLeft w.
Proof.
  unfold movesLeft.
  by rewrite cleanup_services, cleanup_serviceIndex, cleanup_serviceCycles,
    cleanup_reconnectConfig.
Qed.

(** ** [run] returns: the fuel of [run_] and [scheduleReconnect_] suffices *)

(** A switch uses up one of the switches that are left. *)
Lemma movesLeft_switch (E C c i : nat) :
  1 < E → c < C →
  let i' := (i + 1) mod E in
  let c' := if decide (i' = 0) then S c else c in
  S (if (1 <? E) && (c' <? C) then (C - c') * E - i' mod E else 0)
  = (C - c) * E - i mod E.
Proof.
  intros HE Hc i' c'.
  assert (Hi : i mod E < E) by (apply Nat.mod_upper_bound; lia).
  assert (Hi' : i' = if decide (S (i mod E) = E) then 0 else S (i mod E)).
  { unfold i'. rewrite Nat.Div0.add_mod by lia.
    rewrite (Nat.mod_small 1 E) by lia.
    case_decide as Heq.
    - replace (i mod E + 1) with E by lia. apply Nat.Div0.mod_same.
    - rewrite Nat.mod_small by lia. lia. }
  assert (HE1 : (1 <? E) = true) by (apply Nat.ltb_lt; lia).
  rewrite HE1. simpl andb.
  destruct (decide (S (i mod E) = E)) as [Heq|Hne].
  - subst c'. rewrite Hi'. rewrite decide_True by reflexivity.
    rewrite Nat.Div0.mod_0_l.
    destruct (S c <? C) eqn:Hlt.
    + apply Nat.ltb_lt in Hlt. nia.
    + apply Nat.ltb_ge in Hlt. assert (C = S c) by lia. subst C.
      replace (S c - c) with 1 by lia. lia.
  - subst c'. rewrite Hi'. rewrite decide_False by lia.
    assert (Hc' : (c <? C) = true) by (apply Nat.ltb_lt; lia). rewrite Hc'.
    rewrite (Nat.mod_small (S (i mod E))) by lia. nia.
Qed.

Lemma moveToNextService_eq run w :
  moveToNextService run w = run (afterSwitch w).
Proof. reflexivity. Qed.

Lemma afterSwitch_services w : getServices (afterSwitch w) = getServices w.
Proof.
  unfold afterSwitch, moveToNextService. simpl. rewrite cleanup_services.
  unfold getServices. frame.
Qed.

Lemma afterSwitch_serviceIndex w :
  serviceIndex (conn (afterSwitch w))
  = (serviceIndex (conn w) + 1) mod length (getServices w).
Proof.
  unfold afterSwitch, moveToNextService. simpl. rewrite cleanup_serviceIndex.
  frame.
Qed.

Lemma afterSwitch_serviceCycles w :
  serviceCycles (conn (afterSwitch w))
  = if decide (serviceIndex (conn (afterSwitch w)) = 0)
    then S (serviceCycles (conn w)) else serviceCycles (conn w).
Proof.
  rewrite afterSwitch_serviceIndex.
  unfold afterSwitch, moveToNextService. simpl. rewrite cleanup_serviceCycles.
  frame.
Qed.

Lemma afterSwitch_reconnectAttempts w : reconnectAttempts (conn (afterSwitch w)) = 0.
Proof.
  unfold afterSwitch, moveToNextService. simpl. rewrite cleanup_reconnectAttempts.
  frame.
Qed.

Lemma afterSwitch_reconnectConfig w :
  reconnectConfig (conn (afterSwitch w)) = reconnectConfig (conn w).
Proof.
  unfold afterSwitch, moveToNextService. simpl. rewrite cleanup_reconnectConfig.
  frame.
Qed.

Lemma canTryNextService_spec w :
  canTryNextService w = true ↔
  1 < length (getServices w) ∧
  serviceCycles (conn w) < maxServiceCycles (reconnectConfig (conn w)).
Proof.
  unfold canTryNextService. rewrite andb_true_iff, !Nat.ltb_lt. reflexivity.
Qed.

Lemma movesLeft_afterSwitch w :
  canTryNextService w = true → S (movesLeft (afterSwitch w)) = movesLeft w.
Proof.
  intros [HE Hc]%canTryNextService_spec. unfold movesLeft.
  rewrite afterSwitch_services, afterSwitch_reconnectConfig.
  rewrite afterSwitch_serviceCycles, afterSwitch_serviceIndex.
  pose proof (movesLeft_switch _ _ _ (serviceIndex (conn w)) HE Hc) as H.
  simpl in H. rewrite H.
  apply Nat.ltb_lt in HE as ->. apply Nat.ltb_lt in Hc as ->. reflexivity.
Qed.

Lemma scheduleReconnect_cases run w :
  scheduleReconnect run w =
  if attemptsExhausted (bumped w) then
    if canTryNextService (bumped w) then run (afterSwitch (bumped w))
    else Some (log ERROR "All services exhausted" (bumped w))
  else Some (afterSchedule w).
Proof.
  unfold afterSchedule, scheduleReconnect, attemptsExhausted. fold (bumped w).
  destruct (_ <=? _); [destruct (canTryNextService _)|]; reflexivity.
Qed.

Lemma run_cases fuel w :
  run (S fuel) w =
  if isConnecting (conn w) then Some w
  else match wsCtorThrows (env w) (getCurrentServiceUrl w) with
       | None => Some (ctorReturned w)
       | Some _ =>
           if shouldReconnect (conn w)
           then scheduleReconnect (run fuel) (ctorFailed w)
           else Some (ctorFailed w)
       end.
Proof.
  unfold ctorReturned, ctorFailed, beforeCtor. simpl.
  destruct (isConnecting (conn w)); [reflexivity|].
  unfold newWebSocket. simpl.
  change (getCurrentServiceUrl (upd (set_isConnecting true) w))
    with (getCurrentServiceUrl w).
  destruct (wsCtorThrows (env w) (getCurrentServiceUrl w)); reflexivity.
Qed.

Lemma movesLeft_bumped w : movesLeft (bumped w) = movesLeft w.
Proof. reflexivity. Qed.

Lemma movesLeft_ctorFailed w : movesLeft (ctorFailed w) = movesLeft w.
Proof. reflexivity. Qed.

Lemma canTryNextService_movesLeft w :
  canTryNextService w = true → 0 < movesLeft w.
Proof. intros H. rewrite <- (movesLeft_afterSwitch w H). lia. Qed.

Lemma run_enough_fuel n w : movesLeft w ≤ n → is_Some (run (S n) w).
Proof.
  revert w. induction n as [|n IH]; intros w Hn; rewrite run_cases;
    destruct (isConnecting (conn w)); eauto;
    destruct (wsCtorThrows _ _); eauto;
    destruct (shouldReconnect _); eauto;
    rewrite scheduleReconnect_cases;
    destruct (attemptsExhausted _); eauto;
    destruct (canTryNextService _) eqn:Hcan; eauto.
  - apply canTryNextService_movesLeft in Hcan.
    rewrite movesLeft_bumped, movesLeft_ctorFailed in Hcan. lia.
  - apply IH. apply movesLeft_afterSwitch in Hcan.
    rewrite movesLeft_bumped, movesLeft_ctorFailed in Hcan. lia.
Qed.

Lemma run_fuel_mono n m w w' : run n w = Some w' → n ≤ m → run m w = Some w'.
Proof.
  revert m w w'. induction n as [|n IH]; intros m w w' Hrun Hle; [done|].
  destruct m as [|m]; [lia|]. rewrite run_cases in *.
  destruct (isConnecting (conn w)); [done|].
  destruct (wsCtorThrows _ _); [|done].
  destruct (shouldReconnect _); [|done].
  rewrite scheduleReconnect_cases in *.
  destruct (attemptsExhausted _); [|done].
  destruct (canTryNextService _); [|done].
  apply IH; [done|lia].
Qed.

Lemma run_total n w : movesLeft w ≤ n → run (S n) w = Some (run_ w).
Proof.
  intros Hn. unfold run_.
  destruct (run_enough_fuel (movesLeft w) w) as [w' Hw']; [lia|].
  rewrite Hw'. change (default w (Some w')) with w'.
  eapply run_fuel_mono; [done|lia].
Qed.

Lemma scheduleReconnect_total n w :
  movesLeft w ≤ n → scheduleReconnect (run n) w = Some (scheduleReconnect_ w).
Proof.
  intros Hn. unfold scheduleReconnect_. rewrite !scheduleReconnect_cases.
  destruct (attemptsExhausted _); [|done].
  destruct (canTryNextService _) eqn:Hcan; [|done].
  pose proof (movesLeft_afterSwitch _ Hcan) as Hm.
  rewrite movesLeft_bumped in Hm.
  destruct n as [|n]; [lia|]. rewrite <- Hm.
  rewrite !run_total by lia. reflexivity.
Qed.

(** The equations of the two calls, free of fuel. *)
Lemma scheduleReconnect__eq w :
  scheduleReconnect_ w =
  if attemptsExhausted (bumped w) then
    if canTryNextService (bumped w) then run_ (afterSwitch (bumped w))
    else log ERROR "All services exhausted" (bumped w)
  else afterSchedule w.
Proof.
  pose proof (scheduleReconnect_total (movesLeft w) w (le_n _)) as H.
  rewrite scheduleReconnect_cases in H.
  destruct (attemptsExhausted _); [|congruence].
  destruct (canTryNextService _) eqn:Hcan; [|congruence].
  pose proof (movesLeft_afterSwitch _ Hcan) as Hm.
  rewrite movesLeft_bumped in Hm. rewrite <- Hm, run_total in H by lia.
  congruence.
Qed.

Lemma run__eq w :
  run_ w =
  if isConnecting (conn w) then w
  else match wsCtorThrows (env w) (getCurrentServiceUrl w) with
       | None => ctorReturned w
       | Some _ =>
           if shouldReconnect (conn w) then scheduleReconnect_ (ctorFailed w)
           else ctorFailed w
       end.
Proof.
  pose proof (run_total (movesLeft w) w (le_n _)) as H.
  rewrite run_cases in H.
  destruct (isConnecting (conn w)); [congruence|].
  destruct (wsCtorThrows _ _); [|congruence].
  destruct (shouldReconnect _); [|congruence].
  rewrite scheduleReconnect_total in H by (rewrite movesLeft_ctorFailed; lia).
  congruence.
Qed.

Arguments run : simpl never.

(** ** [send] *)

(** C7: [send] returns [false] at once, forwarding nothing, when there is no
    transport handle or the handle is not open; on an open handle it forwards
    the data and returns [true]; when the transport's own [send] throws, the
    error is logged and [false] is returned.  [send] always returns a boolean:
    no path of it throws. *)
Theorem send_returns_success_flag (data : SendData) (w : World) :
  (transportOpen w = None →
     send data w = (false, log DEBUG "Cannot send: WebSocket not connected" w)) ∧
  (∀ id, transportOpen w = Some id →
     match wsSendThrows (env w) data with
     | None => send data w = (true, effect (EWsSend id data) w)
     | Some _ => send data w = (false, log ERROR "Error sending data" w)
     end).
Proof.
  unfold transportOpen, send. split.
  - destruct (ws (conn w)) as [id|]; [|done].
    case_decide as Hopen; [done|]. intros _.
    destruct (sockState id w); done.
  - intros id. destruct (ws (conn w)) as [id'|]; [|done].
    case_decide as Hopen; [|done]. intros [= ->]. rewrite Hopen.
    destruct (wsSendThrows _ _); done.
Qed.

Lemma send_returns_success_flag_witness :
  send (SendString "ping") sampleWorld
  = (false, log DEBUG "Cannot send: WebSocket not connected" sampleWorld) ∧
  send (SendString "ping") sampleOpen
  = (true, effect (EWsSend 0 (SendString "ping")) sampleOpen).
Proof.
  split.
  - apply (proj1 (send_returns_success_flag (SendString "ping") sampleWorld)).
    reflexivity.
  - apply (proj2 (send_returns_success_flag (SendString "ping") sampleOpen) 0).
    reflexivity.
Defined.

(** ** A successful open *)

Lemma getConnectionInfo_read w :
  readInfo (getConnectionInfo w).1 (getConnectionInfo w).2
  = Some {| info_state := getState w;
            info_currentService := getCurrentServiceUrl w;
            info_serviceIndex := serviceIndex (conn w);
            info_allServices := length (heap w);
            info_reconnectAttempts := reconnectAttempts (conn w);
            info_serviceCycles := serviceCycles (conn w);
            info_messageCount := messageCount (conn w);
            info_lastMessageTime := lastMessageTime (conn w) |}.
Proof.
  unfold readInfo, getConnectionInfo, alloc. simpl.
  rewrite lookup_app_r by (rewrite length_app; simpl; lia).
  rewrite length_app. simpl.
  replace (length (heap w) + 1 - (length (heap w) + 1)) with 0 by lia.
  reflexivity.
Qed.




(** ** [route] *)

Lemma invocationsOf_app es1 es2 :
  invocationsOf (es1 ++ es2) = invocationsOf es1 ++ invocationsOf es2.
Proof. apply omap_app. Qed.

Lemma errorsOf_app es1 es2 : errorsOf (es1 ++ es2) = errorsOf es1 ++ errorsOf es2.
Proof. apply omap_app. Qed.

(** C6: on a payload that [JSON.parse] rejects, [route] calls no handler and
    emits exactly one ["error"] event, which carries the parse failure and the
    raw payload, however many registrations there are. *)
Theorem route_undecodable (rawData : string) (connectionInfo : nat) (now : Z)
    (r : Router) :
  JSON_parse r rawData = None →
  let r' := (route rawData connectionInfo now r).2 in
  ∃ es, rtrace r' = rtrace r ++ es ∧
        invocationsOf es = [] ∧
        errorsOf es = [ {| he_error := "Failed to parse WebSocket message as JSON";
                           he_rawData := rawData; he_timestamp := now |} ] ∧
        handlers r' = handlers r.
Proof.
  intros Hparse. unfold route. simpl. rewrite Hparse.
  unfold emitError. simpl.
  destruct (errorEmitThrows r); simpl; eexists;
    (split; [rewrite <- !app_assoc; reflexivity | done]).
Qed.

Lemma route_undecodable_witness :
  ∃ es, rtrace (route "{oops" 0 0 sampleRouter).2 = rtrace sampleRouter ++ es ∧
        invocationsOf es = [] ∧
        errorsOf es = [ {| he_error := "Failed to parse WebSocket message as JSON";
                           he_rawData := "{oops"; he_timestamp := 0 |} ] ∧
        handlers (route "{oops" 0 0 sampleRouter).2 = handlers sampleRouter.
Proof. apply (route_undecodable "{oops" 0 0 sampleRouter). reflexivity. Defined.

(** What a call of the [catch] block of [invokeHandler] adds. *)
Lemma handlerFailed_spec e rawData now r :
  let r' := (handlerFailed e rawData now r).2 in
  handlers r' = handlers r ∧ JSON_parse r' = JSON_parse r ∧
  errorEmitThrows r' = errorEmitThrows r ∧
  (handlerFailed e rawData now r).1 ≠ Awaiting e ∧
  ∃ es, rtrace r' = rtrace r ++ es ∧ invocationsOf es = [] ∧
        errorsOf es = [errorOf rawData now e].
Proof.
  unfold handlerFailed, emitError. simpl.
  destruct (errorEmitThrows r) eqn:Hthrow; simpl; split_and!; try done;
    eexists; (split; [rewrite <- !app_assoc; reflexivity | done]).
Qed.

Lemma matchLoop_spec parsed rawData info now regs : ∀ index r,
  let res := matchLoop parsed rawData info now index regs r in
  let acc := accepted parsed rawData info index regs in
  handlers res.2 = handlers r ∧ JSON_parse res.2 = JSON_parse r ∧
  errorEmitThrows res.2 = errorEmitThrows r ∧
  length res.1 = length acc ∧
  awaited res.1 = omap rejectedOf acc ∧
  ∃ es, rtrace res.2 = rtrace r ++ es ∧
        invocationsOf es = map (fun c => (c.1.1, c.2)) acc ∧
        errorsOf es = errorOf rawData now <$> omap thrownOf acc.
Proof.
  induction regs as [|reg regs IH]; intros index r; simpl.
  { split_and!; try done. exists []. by rewrite app_nil_r. }
  destruct (schema reg parsed) as [data|]; [|apply IH].
  unfold invokeHandler. fold (contextOf rawData info data).
  unfold rejectedOf at 1, thrownOf at 1. simpl.
  set (r1 := reffect (RInvoke index (contextOf rawData info data)) r).
  destruct (handler reg (contextOf rawData info data)) as [|e|e] eqn:Hh; simpl.
  - specialize (IH (S index) r1). simpl in IH.
    destruct (matchLoop _ _ _ _ _ _ r1) as [ps r2]. simpl in *.
    destruct IH as (? & ? & ? & Hlen & Haw & es & Hes & Hinv & Herr).
    split_and!; [done|done|done|by rewrite Hlen|done|].
    exists (RInvoke index (contextOf rawData info data) :: es).
    rewrite Hes. simpl. rewrite <- app_assoc. simpl. by rewrite Hinv.
  - pose proof (handlerFailed_spec e rawData now r1) as Hf. simpl in Hf.
    destruct (handlerFailed e rawData now r1) as [p r2] eqn:Hhf. simpl in Hf.
    destruct Hf as (Hh2 & Hj2 & He2 & Hp & es2 & Hes2 & Hinv2 & Herr2).
    specialize (IH (S index) r2). simpl in IH.
    destruct (matchLoop _ _ _ _ _ _ r2) as [ps r3]. simpl in *.
    destruct IH as (? & ? & ? & Hlen & Haw & es & Hes & Hinv & Herr).
    split_and!; [congruence|congruence|congruence|by rewrite Hlen| |].
    + unfold awaited in *. simpl.
      unfold handlerFailed, emitError in Hhf. simpl in Hhf.
      destruct (errorEmitThrows r); injection Hhf as <- _; done.
    + exists (RInvoke index (contextOf rawData info data) :: es2 ++ es).
      rewrite Hes, Hes2. simpl. rewrite <- !app_assoc. simpl.
      split; [done|]. rewrite invocationsOf_app, errorsOf_app.
      rewrite Hinv2, Herr2, Hinv, Herr. done.
  - specialize (IH (S index) r1). simpl in IH.
    destruct (matchLoop _ _ _ _ _ _ r1) as [ps r2]. simpl in *.
    destruct IH as (? & ? & ? & Hlen & Haw & es & Hes & Hinv & Herr).
    split_and!; [done|done|done|by rewrite Hlen| |].
    + unfold awaited in *. simpl. by rewrite Haw.
    + exists (RInvoke index (contextOf rawData info data) :: es).
      rewrite Hes. simpl. rewrite <- app_assoc. simpl. by rewrite Hinv.
Qed.

Lemma allSettled_spec rawData now ps : ∀ r,
  let res := allSettled rawData now ps r in
  handlers res.2 = handlers r ∧
  ∃ es, rtrace res.2 = rtrace r ++ es ∧ invocationsOf es = [] ∧
        errorsOf es = errorOf rawData now <$> awaited ps.
Proof.
  induction ps as [|p ps IH]; intros r; simpl.
  { split; [done|]. exists []. by rewrite app_nil_r. }
  destruct p as [|e|e]; simpl.
  - specialize (IH r). destruct (allSettled _ _ _ r) as [qs r1]. exact IH.
  - specialize (IH r). destruct (allSettled _ _ _ r) as [qs r1]. exact IH.
  - pose proof (handlerFailed_spec e rawData now r) as Hf. simpl in Hf.
    destruct (handlerFailed e rawData now r) as [p r1]. simpl in Hf.
    destruct Hf as (Hh & _ & _ & _ & es1 & Hes1 & Hinv1 & Herr1).
    specialize (IH r1). destruct (allSettled _ _ _ r1) as [qs r2]. simpl in *.
    destruct IH as (Hh2 & es2 & Hes2 & Hinv2 & Herr2).
    split; [congruence|]. exists (es1 ++ es2).
    rewrite Hes2, Hes1, <- app_assoc, invocationsOf_app, errorsOf_app.
    by rewrite Hinv1, Hinv2, Herr1, Herr2.
Qed.

Lemma accepted_elem parsed rawData info regs : ∀ index i reg ctx,
  (i, reg, ctx) ∈ accepted parsed rawData info index regs ↔
  ∃ j data, i = index + j ∧ regs !! j = Some reg ∧
            schema reg parsed = Some data ∧ ctx = contextOf rawData info data.
Proof.
  induction regs as [|reg0 regs IH]; intros index i reg ctx; simpl.
  { split; [by intros ?%elem_of_nil|]. by intros (j & ? & _ & ? & _). }
  assert (Htail : (i, reg, ctx) ∈ accepted parsed rawData info (S index) regs ↔
    ∃ j data, i = index + S j ∧ (reg0 :: regs) !! S j = Some reg ∧
              schema reg parsed = Some data ∧ ctx = contextOf rawData info data).
  { rewrite IH. split.
    - intros (k & data & -> & ?). exists k, data. split; [lia|done].
    - intros (k & data & -> & ?). exists k, data. split; [lia|done]. }
  destruct (schema reg0 parsed) as [data0|] eqn:Hs.
  - rewrite elem_of_cons, Htail. split.
    + intros [[= -> -> ->]|(j & data & ?)].
      * exists 0, data0. split_and!; [lia|done..].
      * by exists (S j), data.
    + intros ([|j] & data & -> & Hl & Hd & ->).
      * left. simpl in Hl. injection Hl as <-.
        rewrite Hs in Hd. injection Hd as <-. by rewrite Nat.add_0_r.
      * right. by exists j, data.
  - rewrite Htail. split.
    + intros (j & data & ?). by exists (S j), data.
    + intros ([|j] & data & -> & Hl & Hd & ->).
      * simpl in Hl. injection Hl as <-. congruence.
      * by exists j, data.
Qed.

Lemma accepted_NoDup parsed rawData info regs : ∀ index,
  NoDup (map (fun c => c.1.1) (accepted parsed rawData info index regs)).
Proof.
  induction regs as [|reg0 regs IH]; intros index; simpl; [constructor|].
  destruct (schema reg0 parsed); [|apply IH].
  simpl. constructor; [|apply IH].
  rewrite list_elem_of_fmap. intros ([[i reg] ctx] & Hi & Hin). simpl in Hi.
  apply accepted_elem in Hin as (k & d & Hk & _). lia.
Qed.

(** The failures of a list of calls, split by when they surface. *)
Lemma failures_split {A B} (h f g : A → option B) (l : list A) :
  (∀ x, x ∈ l → (h x = f x ∧ g x = None) ∨ (h x = g x ∧ f x = None)) →
  omap f l ++ omap g l ≡ₚ omap h l.
Proof.
  induction l as [|x l IH]; intros Hx; [done|]. simpl.
  specialize (IH (fun y Hy => Hx y (list_elem_of_further _ _ _ Hy))).
  destruct (Hx x (list_elem_of_here _ _)) as [[-> ->]|[-> ->]].
  - destruct (f x); simpl; by rewrite IH.
  - destruct (g x); [|done]. by rewrite <- Permutation_middle, IH.
Qed.

Lemma failureOf_calls regs rawData now
    (acc : list (nat * HandlerRegistration * HandlerContext)) :
  (∀ c, c ∈ acc → regs !! c.1.1 = Some c.1.2) →
  omap (failureOf regs rawData now) (map (fun c => (c.1.1, c.2)) acc)
  = errorOf rawData now <$> omap (fun c => failure (handler c.1.2 c.2)) acc.
Proof.
  induction acc as [|c acc IH]; intros Hacc; [done|]. simpl.
  unfold failureOf at 1. simpl.
  rewrite (Hacc c) by apply list_elem_of_here. simpl.
  assert (Hacc' : ∀ c0, c0 ∈ acc → regs !! c0.1.1 = Some c0.1.2)
    by (intros; apply Hacc; by apply list_elem_of_further).
  destruct (failure (handler c.1.2 c.2)); simpl; [f_equal|]; exact (IH Hacc').
Qed.

(** C3: on a payload that decodes, [route] calls exactly the handlers whose
    schema accepts the decoded value, each once, with the validated data; every
    call that throws or rejects yields exactly one ["error"] event and no other
    ["error"] event is emitted; the other accepted handlers are called all the
    same, and the promise of [route] resolves, even where the ["error"] emitter
    itself throws. *)
Theorem route_isolates_handlers (rawData : string) (connectionInfo : nat)
    (now : Z) (r : Router) (parsed : Json) :
  JSON_parse r rawData = Some parsed →
  let res := route rawData connectionInfo now r in
  res.1 = Normal tt ∧ handlers res.2 = handlers r ∧
  ∃ es, rtrace res.2 = rtrace r ++ es ∧
    (∀ i ctx, (i, ctx) ∈ invocationsOf es ↔
       ∃ reg data, handlers r !! i = Some reg ∧ schema reg parsed = Some data ∧
                   ctx = contextOf rawData connectionInfo data) ∧
    NoDup (invocationsOf es).*1 ∧
    errorsOf es ≡ₚ omap (failureOf (handlers r) rawData now) (invocationsOf es).
Proof.
  intros Hparse. unfold route. simpl. rewrite Hparse.
  set (r0 := reffect (RRoute rawData) r).
  set (acc := accepted parsed rawData connectionInfo 0 (handlers r)).
  pose proof (matchLoop_spec parsed rawData connectionInfo now (handlers r) 0 r0) as Hm.
  simpl in Hm. fold acc in Hm.
  destruct (matchLoop _ _ _ _ _ _ r0) as [matched r1]. simpl in Hm.
  destruct Hm as (Hh1 & _ & _ & Hlen & Haw & es1 & Hes1 & Hinv1 & Herr1).
  assert (Hcalls : ∀ i ctx, (i, ctx) ∈ map (fun c => (c.1.1, c.2)) acc ↔
    ∃ reg data, handlers r !! i = Some reg ∧ schema reg parsed = Some data ∧
                ctx = contextOf rawData connectionInfo data).
  { intros i ctx. rewrite list_elem_of_fmap. split.
    - intros ([[i' reg] ctx'] & [= -> ->] & Hin).
      apply accepted_elem in Hin as (j & data & -> & ? & ? & ->).
      by exists reg, data.
    - intros (reg & data & Hl & Hd & ->).
      exists (i, reg, contextOf rawData connectionInfo data). split; [done|].
      apply accepted_elem. by exists i, data. }
  assert (Hnd : NoDup (map (fun c => (c.1.1, c.2)) acc).*1).
  { rewrite <- list_fmap_compose. apply accepted_NoDup. }
  assert (Hfail : (errorOf rawData now <$> omap thrownOf acc) ++
                  (errorOf rawData now <$> omap rejectedOf acc)
                  ≡ₚ omap (failureOf (handlers r) rawData now)
                       (map (fun c => (c.1.1, c.2)) acc)).
  { rewrite <- fmap_app, (failures_split
      (fun c => failure (handler c.1.2 c.2)) thrownOf rejectedOf).
    - rewrite failureOf_calls; [done|].
      intros [[i reg] ctx] Hin.
      apply accepted_elem in Hin as (k & d & Hk & Hl & _).
      simpl in *. by subst.
    - intros c _. unfold thrownOf, rejectedOf.
      destruct (handler c.1.2 c.2); auto. }
  destruct (length matched =? 0) eqn:Hz.
  - apply Nat.eqb_eq in Hz. rewrite Hlen in Hz.
    apply nil_length_inv in Hz. simpl. split_and!; [done|done|].
    exists (RRoute rawData :: es1 ++ [RLog DEBUG "No handlers matched message"]).
    split. { rewrite Hes1. simpl. by rewrite <- !app_assoc. }
    simpl. rewrite invocationsOf_app, errorsOf_app, Hinv1, Herr1. simpl.
    rewrite !app_nil_r. rewrite Hz in *. simpl. split_and!; done.
  - set (r2 := rlog DEBUG "Dispatching to matched handlers" r1).
    pose proof (allSettled_spec rawData now matched r2) as Hs. simpl in Hs.
    destruct (allSettled rawData now matched r2) as [settled r3]. simpl in *.
    destruct Hs as (Hh3 & es3 & Hes3 & Hinv3 & Herr3).
    split_and!; [done|congruence|].
    exists (RRoute rawData :: es1 ++
            RLog DEBUG "Dispatching to matched handlers" :: es3).
    split. { rewrite Hes3. simpl. rewrite Hes1. simpl. by rewrite <- !app_assoc. }
    simpl. rewrite invocationsOf_app, errorsOf_app. simpl.
    rewrite Hinv1, Herr1, Hinv3, Herr3, Haw, app_nil_r.
    split_and!; [exact Hcalls|exact Hnd|exact Hfail].
Qed.

Lemma route_isolates_handlers_witness :
  (route "hello" 7 0 sampleRouter).1 = Normal tt ∧
  invocationsOf (rtrace (route "hello" 7 0 sampleRouter).2)
  = [(0, contextOf "hello" 7 (JStr "hello")); (1, contextOf "hello" 7 (JStr "hello"))] ∧
  errorsOf (rtrace (route "hello" 7 0 sampleRouter).2) = [errorOf "hello" 0 "boom"].
Proof.
  split; [|split; reflexivity].
  apply (route_isolates_handlers "hello" 7 0 sampleRouter (JStr "hello")).
  reflexivity.
Defined.

(** ** Induction along the calls of [run] *)

Lemma run__ind (P : World → World → Prop) :
  (∀ w, isConnecting (conn w) = true → P w w) →
  (∀ w, isConnecting (conn w) = false →
        wsCtorThrows (env w) (getCurrentServiceUrl w) = None →
        P w (ctorReturned w)) →
  (∀ w e, isConnecting (conn w) = false →
          wsCtorThrows (env w) (getCurrentServiceUrl w) = Some e →
          shouldReconnect (conn w) = false → P w (ctorFailed w)) →
  (∀ w e, isConnecting (conn w) = false →
          wsCtorThrows (env w) (getCurrentServiceUrl w) = Some e →
          shouldReconnect (conn w) = true →
          attemptsExhausted (bumped (ctorFailed w)) = false →
          P w (afterSchedule (ctorFailed w))) →
  (∀ w e, isConnecting (conn w) = false →
          wsCtorThrows (env w) (getCurrentServiceUrl w) = Some e →
          shouldReconnect (conn w) = true →
          attemptsExhausted (bumped (ctorFailed w)) = true →
          canTryNextService (bumped (ctorFailed w)) = false →
          P w (log ERROR "All services exhausted" (bumped (ctorFailed w)))) →
  (∀ w e, isConnecting (conn w) = false →
          wsCtorThrows (env w) (getCurrentServiceUrl w) = Some e →
          shouldReconnect (conn w) = true →
          attemptsExhausted (bumped (ctorFailed w)) = true →
          canTryNextService (bumped (ctorFailed w)) = true →
          P (afterSwitch (bumped (ctorFailed w)))
            (run_ (afterSwitch (bumped (ctorFailed w)))) →
          P w (run_ (afterSwitch (bumped (ctorFailed w))))) →
  ∀ w, P w (run_ w).
Proof.
  intros H1 H2 H3 H4 H5 H6 w.
  remember (movesLeft w) as n eqn:Hn. revert w Hn.
  induction n as [n IH] using lt_wf_ind. intros w Hn.
  rewrite run__eq.
  destruct (isConnecting (conn w)) eqn:Hc; [by apply H1|].
  destruct (wsCtorThrows _ _) as [e|] eqn:Ht; [|by apply H2].
  destruct (shouldReconnect _) eqn:Hs; [|by eapply H3].
  rewrite scheduleReconnect__eq.
  destruct (attemptsExhausted _) eqn:Hx; [|by eapply H4].
  destruct (canTryNextService _) eqn:Hcan; [|by eapply H5].
  eapply H6; try done.
  eapply (IH (movesLeft (afterSwitch (bumped (ctorFailed w))))); [|done].
  apply movesLeft_afterSwitch in Hcan.
  rewrite movesLeft_bumped, movesLeft_ctorFailed in Hcan. lia.
Qed.

(** A property that every step of [run] keeps is kept by [run_]. *)
Lemma run__preserves (Q : World → Prop) :
  (∀ w, Q w → Q (ctorReturned w)) →
  (∀ w, Q w → Q (ctorFailed w)) →
  (∀ w, Q w → Q (afterSchedule w)) →
  (∀ w, Q w → Q (log ERROR "All services exhausted" (bumped w))) →
  (∀ w, Q w → Q (afterSwitch (bumped w))) →
  ∀ w, Q w → Q (run_ w).
Proof.
  intros H1 H2 H3 H4 H5 w.
  apply (run__ind (fun w w' => Q w → Q w')); eauto.
Qed.

Lemma scheduleReconnect__preserves (Q : World → Prop) :
  (∀ w, Q w → Q (ctorReturned w)) →
  (∀ w, Q w → Q (ctorFailed w)) →
  (∀ w, Q w → Q (afterSchedule w)) →
  (∀ w, Q w → Q (log ERROR "All services exhausted" (bumped w))) →
  (∀ w, Q w → Q (afterSwitch (bumped w))) →
  ∀ w, Q w → Q (scheduleReconnect_ w).
Proof.
  intros H1 H2 H3 H4 H5 w Hw. rewrite scheduleReconnect__eq.
  destruct (attemptsExhausted _); [|by apply H3].
  destruct (canTryNextService _); [|by apply H4].
  apply run__preserves; auto.
Qed.

(** ** The heap, the configuration and the overlay are left alone *)

Ltac unfold_steps :=
  unfold ctorReturned, ctorFailed, beforeCtor, afterSchedule, afterSwitch, bumped,
    scheduleReconnect, moveToNextService.

Lemma step_heap w :
  heap (ctorReturned w) = heap w ∧ heap (ctorFailed w) = heap w ∧
  heap (afterSchedule w) = heap w ∧
  heap (log ERROR "All services exhausted" (bumped w)) = heap w ∧
  heap (afterSwitch (bumped w)) = heap w.
Proof.
  split_and!; try done.
  - unfold_steps. frame.
  - unfold afterSwitch, moveToNextService. simpl. rewrite cleanup_heap. frame.
Qed.

Lemma step_static w :
  static (ctorReturned w) = static w ∧ static (ctorFailed w) = static w ∧
  static (afterSchedule w) = static w ∧
  static (log ERROR "All services exhausted" (bumped w)) = static w ∧
  static (afterSwitch (bumped w)) = static w.
Proof.
  split_and!; try done.
  - unfold_steps. frame.
  - unfold static, afterSwitch, moveToNextService. simpl.
    rewrite cleanup_services_ref, cleanup_reconnectConfig, cleanup_env.
    unfold cleanup. frame.
Qed.

Lemma step_queryParams w :
  queryParams (conn (ctorReturned w)) = queryParams (conn w) ∧
  queryParams (conn (ctorFailed w)) = queryParams (conn w) ∧
  queryParams (conn (afterSchedule w)) = queryParams (conn w) ∧
  queryParams (conn (log ERROR "All services exhausted" (bumped w)))
  = queryParams (conn w) ∧
  queryParams (conn (afterSwitch (bumped w))) = queryParams (conn w).
Proof.
  split_and!; try done.
  - unfold_steps. frame.
  - unfold afterSwitch, moveToNextService. simpl.
    rewrite cleanup_queryParams. frame.
Qed.

Lemma run__frame w :
  heap (run_ w) = heap w ∧ static (run_ w) = static w ∧
  queryParams (conn (run_ w)) = queryParams (conn w).
Proof.
  apply (run__preserves (fun w' =>
    heap w' = heap w ∧ static w' = static w ∧
    queryParams (conn w') = queryParams (conn w))); [..|done];
  intros w' (Hh & Hs & Hq);
  destruct (step_heap w') as (? & ? & ? & ? & ?);
  destruct (step_static w') as (? & ? & ? & ? & ?);
  destruct (step_queryParams w') as (? & ? & ? & ? & ?);
  split_and!; congruence.
Qed.

Lemma scheduleReconnect__frame w :
  heap (scheduleReconnect_ w) = heap w ∧
  static (scheduleReconnect_ w) = static w ∧
  queryParams (conn (scheduleReconnect_ w)) = queryParams (conn w).
Proof.
  apply (scheduleReconnect__preserves (fun w' =>
    heap w' = heap w ∧ static w' = static w ∧
    queryParams (conn w') = queryParams (conn w))); [..|done];
  intros w' (Hh & Hs & Hq);
  destruct (step_heap w') as (? & ? & ? & ? & ?);
  destruct (step_static w') as (? & ? & ? & ? & ?);
  destruct (step_queryParams w') as (? & ? & ? & ? & ?);
  split_and!; congruence.
Qed.

Lemma framed_refl w : framed w w.
Proof. done. Qed.

Lemma framed_trans w1 w2 w3 : framed w1 w2 → framed w2 w3 → framed w1 w3.
Proof. unfold framed. intros (? & ? & ?) (? & ? & ?). split_and!; congruence. Qed.

Lemma framed_run_ w : framed w (run_ w).
Proof. apply run__frame. Qed.

Lemma framed_scheduleReconnect_ w : framed w (scheduleReconnect_ w).
Proof. apply scheduleReconnect__frame. Qed.

Lemma framed_cleanup w : framed w (cleanup w).
Proof.
  unfold framed, static.
  by rewrite cleanup_heap, cleanup_services_ref, cleanup_reconnectConfig,
    cleanup_env, cleanup_queryParams; unfold cleanup; frame.
Qed.

Lemma framed_stopHeartbeat w : framed w (stopHeartbeat w).
Proof. unfold framed, static. frame. Qed.

Lemma framed_clearReconnectTimer w : framed w (clearReconnectTimer w).
Proof. unfold framed, static. frame. Qed.

Lemma framed_clearTimer id w : framed w (clearTimer id w).
Proof. unfold framed, static. frame. Qed.

Lemma framed_updSock id f w : framed w (updSock id f w).
Proof. unfold framed, static. frame. Qed.

Lemma framed_wsClose id w : framed w (wsClose id w).
Proof. unfold framed, static. frame. Qed.

Lemma framed_onOpen w : framed w (onOpen w).
Proof. unfold framed, static, onOpen. frame. Qed.

Lemma framed_onMessage data now w : framed w (onMessage data now w).
Proof. unfold framed, static, onMessage. frame. Qed.

Lemma framed_onError error w : framed w (onError error w).
Proof. unfold framed, static, onError. frame. Qed.

Lemma framed_onPing w : framed w (onPing w).
Proof. unfold framed, static, onPing. frame. Qed.

Lemma framed_onClose code reason w : framed w (onClose code reason w).
Proof.
  unfold onClose.
  set (w1 := emit _ (stopHeartbeat _)).
  assert (framed w w1) as H1.
  { subst w1. eapply framed_trans; [|eapply framed_trans;
      [apply framed_stopHeartbeat|]]; [|done]. done. }
  destruct (shouldReconnect (conn w1)); [|done].
  eapply framed_trans; [exact H1|apply framed_scheduleReconnect_].
Qed.

Lemma framed_onReconnectTimer w : framed w (onReconnectTimer w).
Proof.
  unfold onReconnectTimer.
  eapply framed_trans; [apply framed_cleanup|apply framed_run_].
Qed.

Lemma framed_notify id h w : (∀ w, framed w (h w)) → framed w (notify id h w).
Proof. intros Hh. unfold notify. by destruct (listening id w). Qed.

Lemma framed_deliver ev w : framed w (deliver ev w).
Proof.
  destruct ev as [id|id data now|id error|id code reason|id]; simpl.
  - destruct (sockState id w); try done.
    eapply framed_trans; [apply framed_updSock|].
    apply framed_notify, framed_onOpen.
  - destruct (sockState id w); try done;
      apply framed_notify; intros; apply framed_onMessage.
  - destruct (sockState id w); try done;
      (eapply framed_trans; [apply framed_updSock|]);
      apply framed_notify; intros; apply framed_onError.
  - destruct (sockState id w); try done;
      (eapply framed_trans; [apply framed_updSock|]);
      apply framed_notify; intros; apply framed_onClose.
  - destruct (timers w !! id) as [t|]; [|done].
    destruct (timerLive t); [|done].
    destruct (timerKind t); [apply framed_onPing|].
    eapply framed_trans; [apply framed_clearTimer|apply framed_onReconnectTimer].
Qed.

Lemma framed_connect w : framed w (connect w).
Proof.
  unfold connect. destruct (_ || _); [done|].
  eapply framed_trans; [|apply framed_run_]. done.
Qed.

Lemma framed_close w : framed w (close w).
Proof.
  unfold close.
  set (w1 := clearReconnectTimer _).
  assert (framed w w1) as H1.
  { subst w1. eapply framed_trans; [|apply framed_clearReconnectTimer].
    eapply framed_trans; [|apply framed_stopHeartbeat]. done. }
  destruct (ws (conn w1)); [|done].
  eapply framed_trans; [exact H1|apply framed_wsClose].
Qed.

Lemma framed_send data w : framed w (send data w).2.
Proof.
  unfold send. destruct (ws (conn w)) as [id|]; [|done].
  destruct (sockState id w); try done.
  by destruct (wsSendThrows (env w) data).
Qed.

Lemma updateParams_frame params w :
  heap (updateParams params w) = heap w ∧
  static (updateParams params w) = static w ∧
  queryParams (conn (updateParams params w)) = params ∪ queryParams (conn w).
Proof.
  unfold updateParams.
  set (w1 := upd (set_serviceCycles 0) _).
  destruct (framed_run_ w1) as (-> & -> & ->). subst w1.
  unfold static. simpl.
  by rewrite cleanup_heap, cleanup_services_ref, cleanup_reconnectConfig,
    cleanup_env, cleanup_queryParams; unfold cleanup; frame.
Qed.

(** ** [updateParams] *)

Lemma getConnectionInfo_conn w :
  conn (getConnectionInfo w).2 = conn w ∧ env (getConnectionInfo w).2 = env w.
Proof. done. Qed.


Lemma acts_snoc l a w : acts (l ++ [a]) w = act a (acts l w).
Proof. unfold acts. by rewrite foldl_app. Qed.







(** ** Snapshots *)

Lemma act_heap_lookup a w ref :
  ref < length (heap w) → writesTo a ≠ Some ref →
  heap (act a w) !! ref = heap w !! ref ∧ length (heap w) ≤ length (heap (act a w)).
Proof.
  intros Hlt Hw.
  assert (Hsame : ∀ w', heap w' = heap w →
    heap w' !! ref = heap w !! ref ∧ length (heap w) ≤ length (heap w'))
    by (by intros w' ->).
  destruct a as [| |data|params| |ev|r o]; simpl.
  - apply Hsame, framed_connect.
  - apply Hsame, framed_close.
  - apply Hsame, framed_send.
  - apply Hsame, updateParams_frame.
  - unfold getConnectionInfo, alloc. simpl. rewrite !length_app.
    split; [|lia]. rewrite !lookup_app_l; [done|lia|rewrite length_app; lia].
  - apply Hsame, framed_deliver.
  - rewrite length_insert. split; [|done].
    apply list_lookup_insert_ne. simpl in Hw. congruence.
Qed.

Lemma acts_heap_lookup l : ∀ w ref,
  ref < length (heap w) → (∀ a, a ∈ l → writesTo a ≠ Some ref) →
  heap (acts l w) !! ref = heap w !! ref.
Proof.
  induction l as [|a l IH]; intros w ref Hlt Hl; [done|].
  change (acts (a :: l) w) with (acts l (act a w)).
  destruct (act_heap_lookup a w ref Hlt) as [Heq Hlen];
    [apply Hl, list_elem_of_here|].
  rewrite IH; [done|lia|]. intros; by apply Hl, list_elem_of_further.
Qed.

Lemma heapWrites_frame l : ∀ w,
  conn (heapWrites l w) = conn w ∧ socks (heapWrites l w) = socks w ∧
  timers (heapWrites l w) = timers w ∧ trace (heapWrites l w) = trace w ∧
  env (heapWrites l w) = env w ∧
  ∀ ref, (∀ x, x ∈ l → x.1 ≠ ref) → heap (heapWrites l w) !! ref = heap w !! ref.
Proof.
  induction l as [|x l IH]; intros w; [done|].
  change (heapWrites (x :: l) w) with (heapWrites l (heapWrite x.1 x.2 w)).
  destruct (IH (heapWrite x.1 x.2 w)) as (-> & -> & -> & -> & -> & Hh).
  split_and!; try done. intros ref Hne.
  rewrite Hh by (intros; by apply Hne, list_elem_of_further).
  simpl. apply list_lookup_insert_ne, Hne, list_elem_of_here.
Qed.

(** C9: [getConnectionInfo] returns a new object whose [allServices] is a
    new array holding the addresses; taking it changes nothing of the manager.
    Whatever user code then writes into that object or that array, the
    manager's fields and the services it reads are as before; and whatever
    happens to the manager afterwards (its methods, events of the
    environment, writes to any other object, the caller's own services array
    included), the object and the array still read as when they were returned. *)
Theorem getConnectionInfo_returns_a_copy (w : World) :
  services (conn w) < length (heap w) →
  let ref := (getConnectionInfo w).1 in
  let w1 := (getConnectionInfo w).2 in
  let copy := length (heap w) in
  (∃ i, readInfo ref w1 = Some i ∧ info_allServices i = copy ∧
        info_reconnectAttempts i = reconnectAttempts (conn w) ∧
        info_serviceCycles i = serviceCycles (conn w) ∧
        info_serviceIndex i = serviceIndex (conn w) ∧
        info_state i = getState w) ∧
  readArray copy w1 = Some (getServices w) ∧
  copy ≠ services (conn w) ∧ ref ≠ services (conn w) ∧
  conn w1 = conn w ∧ getServices w1 = getServices w ∧
  (∀ writes : list (nat * Obj),
     (∀ x, x ∈ writes → x.1 = ref ∨ x.1 = copy) →
     let w2 := heapWrites writes w1 in
     conn w2 = conn w ∧ getServices w2 = getServices w ∧
     socks w2 = socks w ∧ timers w2 = timers w) ∧
  (∀ l : list Action,
     (∀ a, a ∈ l → writesTo a ≠ Some ref ∧ writesTo a ≠ Some copy) →
     readInfo ref (acts l w1) = readInfo ref w1 ∧
     readArray copy (acts l w1) = readArray copy w1).
Proof.
  intros Hwf ref w1 copy.
  assert (Href : ref = S (length (heap w))).
  { subst ref. unfold getConnectionInfo, alloc. simpl. rewrite length_app. simpl. lia. }
  assert (Hheap : heap w1 = heap w ++ [OArr (getServices w)] ++
                  [OInfo {| info_state := getState w;
                            info_currentService := getCurrentServiceUrl w;
                            info_serviceIndex := serviceIndex (conn w);
                            info_allServices := length (heap w);
                            info_reconnectAttempts := reconnectAttempts (conn w);
                            info_serviceCycles := serviceCycles (conn w);
                            info_messageCount := messageCount (conn w);
                            info_lastMessageTime := lastMessageTime (conn w) |}]).
  { subst w1. unfold getConnectionInfo, alloc. simpl. by rewrite <- app_assoc. }
  assert (Hsv : getServices w1 = getServices w).
  { unfold getServices. change (conn w1) with (conn w).
    rewrite Hheap, lookup_app_l by done. done. }
  split_and!; try done.
  - eexists. split; [apply getConnectionInfo_read|]. done.
  - unfold readArray, copy. rewrite Hheap.
    rewrite lookup_app_r by lia. by rewrite Nat.sub_diag.
  - unfold copy. lia.
  - lia.
  - intros writes Hw w2.
    destruct (heapWrites_frame writes w1) as (Hc & Hs & Ht & _ & _ & Hh).
    split_and!; try done. rewrite <- Hsv. unfold getServices.
    subst w2. rewrite Hc, Hh; [done|].
    intros x Hx. change (conn w1) with (conn w).
    destruct (Hw x Hx) as [->| ->]; rewrite ?Href; unfold copy; lia.
  - intros l Hl. unfold readInfo, readArray.
    rewrite (acts_heap_lookup l w1 ref), (acts_heap_lookup l w1 copy);
      [done|..]; try (intros a Ha; by apply Hl);
      rewrite Hheap, ?Href, !length_app; unfold copy; simpl; lia.
Qed.

Lemma getConnectionInfo_returns_a_copy_witness :
  getServices (heapWrites [(1, OArr ["wss://evil.example.com"])]
                 (getConnectionInfo failoverWorld).2)
  = getServices failoverWorld ∧
  readArray 1 (acts [AWrite 0 (OArr []); AConnect]
                 (getConnectionInfo failoverWorld).2)
  = Some (getServices failoverWorld).
Proof.
  assert (H0 : services (conn failoverWorld) < length (heap failoverWorld))
    by (simpl; lia).
  pose proof (getConnectionInfo_returns_a_copy failoverWorld H0) as H.
  cbv zeta in H. destruct H as (_ & Hread & _ & _ & _ & _ & Hw & Ha).
  split.
  - apply (Hw [(1, OArr ["wss://evil.example.com"])]).
    intros x ->%list_elem_of_singleton. by right.
  - assert (Hl : ∀ a, a ∈ [AWrite 0 (OArr []); AConnect] →
                 writesTo a ≠ Some (getConnectionInfo failoverWorld).1 ∧
                 writesTo a ≠ Some (length (heap failoverWorld))).
    { intros a [->|[->|[]%elem_of_nil]%elem_of_cons]%elem_of_cons; done. }
    destruct (Ha _ Hl) as [_ Hr]. exact (eq_trans Hr Hread).
Defined.

(** ** Messages of an unknown shape *)

Lemma deliver_message_listening id data now w :
  (sockState id w = OPEN ∨ sockState id w = CLOSING) → listening id w = true →
  deliver (WsMessage id data now) w = onMessage data now w.
Proof.
  intros Hst Hl. unfold deliver, notify. rewrite Hl.
  by destruct Hst as [-> | ->].
Qed.

(** C10, as the code has it: a message whose data is neither a string, a
    [Buffer], an [ArrayBuffer] nor an array (of anything) is dropped by the
    client: the router is not entered, the client emits and logs nothing, no
    ["error"] event occurs, and the connection has counted the message. *)
Theorem client_drops_unknown_data (id : nat) (now : Z) (c : Client) (data : WsData) :
  (sockState id (c_world c) = OPEN ∨ sockState id (c_world c) = CLOSING) →
  listening id (c_world c) = true →
  (∀ s, data ≠ DString s) → (∀ b, data ≠ DBuffer b) →
  (∀ b, data ≠ DArrayBuffer b) → (∀ chunks, data ≠ DArray chunks) →
  dropsSilently id data now c.
Proof.
  intros Hst Hl Hs Hb Ha Hc.
  destruct data as [s|b|b|chunks|]; try (by edestruct Hs); try (by edestruct Hb);
    try (by edestruct Ha); try (by edestruct Hc).
  unfold dropsSilently, clientDeliver.
  rewrite deliver_message_listening by done.
  assert (Htr : trace (onMessage DOther now (c_world c))
                = trace (c_world c) ++ [EEmit (EvtMessage DOther)]) by done.
  rewrite Htr, drop_app_length. simpl.
  eexists. split; [reflexivity|]. done.
Qed.

Lemma client_drops_unknown_data_witness : dropsSilently 0 DOther 5 sampleClient.
Proof.
  apply (client_drops_unknown_data 0 5 sampleClient DOther); try done.
  left. reflexivity.
Defined.

(** C10 as stated fails on an array that does not hold [Buffer]s: the
    client hands [[new Uint8Array(...)]] to the router. *)
Lemma client_routes_typed_array_counterexample :
  isTextOrBuffers typedArrayPayload = false ∧
  ¬ dropsSilently 0 typedArrayPayload 5 sampleClient.
Proof.
  split; [reflexivity|].
  intros (c' & Hc' & Hr & _).
  vm_compute in Hc'. injection Hc' as <-. vm_compute in Hr. discriminate Hr.
Qed.

(** ** Timers *)

Lemma timersOwned_view w w' :
  timerView w' = timerView w → timersOwned w → timersOwned w'.
Proof.
  unfold timerView, timersOwned. intros [= Ht Hp Hr] H id t.
  rewrite Ht, Hp, Hr. apply H.
Qed.

Lemma clearTimer_lookup id id' w t :
  timers (clearTimer id w) !! id' = Some t → timerLive t = true →
  id' ≠ id ∧ timers w !! id' = Some t.
Proof.
  unfold clearTimer. destruct (timers w !! id) as [t0|] eqn:H0; simpl.
  - destruct (decide (id' = id)) as [->|Hne].
    + rewrite list_lookup_insert_eq by (by eapply lookup_lt_Some).
      intros [= <-]. done.
    + rewrite list_lookup_insert_ne by done. done.
  - intros Ht Hl. split; [|done]. intros ->. congruence.
Qed.

Lemma timersOwned_clearTimer id w : timersOwned w → timersOwned (clearTimer id w).
Proof.
  intros H id' t Ht Hl. apply clearTimer_lookup in Ht as [_ Ht]; [|done].
  assert (conn (clearTimer id w) = conn w) as -> by frame. eauto.
Qed.

Lemma timersOwned_stopHeartbeat w : timersOwned w → timersOwned (stopHeartbeat w).
Proof.
  intros H. unfold stopHeartbeat.
  destruct (pingTimer (conn w)) as [id|] eqn:Hp; [|done].
  intros id' t Ht Hl. simpl in *.
  apply clearTimer_lookup in Ht as [Hne Ht]; [|done].
  assert (conn (clearTimer id w) = conn w) as -> by frame.
  destruct (H id' t Ht Hl) as [?|?]; [congruence|by right].
Qed.

Lemma timersOwned_clearReconnectTimer w :
  timersOwned w → timersOwned (clearReconnectTimer w).
Proof.
  intros H. unfold clearReconnectTimer.
  destruct (reconnectTimer (conn w)) as [id|] eqn:Hp; [|done].
  intros id' t Ht Hl. simpl in *.
  apply clearTimer_lookup in Ht as [Hne Ht]; [|done].
  assert (conn (clearTimer id w) = conn w) as -> by frame.
  destruct (H id' t Ht Hl) as [?|?]; [by left|congruence].
Qed.

Lemma stopHeartbeat_pingTimer w : pingTimer (conn (stopHeartbeat w)) = None.
Proof. frame. Qed.

Lemma clearReconnectTimer_reconnectTimer w :
  reconnectTimer (conn (clearReconnectTimer w)) = None.
Proof. frame. Qed.

Lemma newTimer_lookup k delay w id t :
  timers (newTimer k delay w).2 !! id = Some t →
  id = length (timers w) ∨ timers w !! id = Some t.
Proof.
  unfold newTimer. simpl. intros Ht.
  destruct (decide (id < length (timers w))) as [Hlt|Hge].
  - right. by rewrite lookup_app_l in Ht.
  - left. apply lookup_lt_Some in Ht. rewrite length_app in Ht. simpl in Ht. lia.
Qed.

Lemma timersOwned_startHeartbeat w : timersOwned w → timersOwned (startHeartbeat w).
Proof.
  intros H%timersOwned_stopHeartbeat. unfold startHeartbeat.
  pose proof (stopHeartbeat_pingTimer w) as Hp.
  set (w1 := stopHeartbeat w) in *. intros id t Ht Hl. simpl in *.
  apply (newTimer_lookup Interval (pingInterval (conn w1)) w1) in Ht as [->|Ht];
    [by left|].
  destruct (H id t Ht Hl) as [?|?]; [congruence|by right].
Qed.

Lemma timersOwned_cleanup w : timersOwned w → timersOwned (cleanup w).
Proof.
  intros H. unfold cleanup. apply timersOwned_clearReconnectTimer.
  eapply timersOwned_view; [|exact H]. unfold timerView. frame.
Qed.

Lemma timersOwned_afterSchedule w : timersOwned w → timersOwned (afterSchedule w).
Proof.
  intros H. unfold afterSchedule. rewrite scheduleReconnect_cases.
  destruct (attemptsExhausted _); [destruct (canTryNextService _); done|].
  unfold afterSchedule, scheduleReconnect. fold (bumped w).
  change (maxAttempts _ <=? _) with (attemptsExhausted (bumped w)).
  destruct (attemptsExhausted _); [by destruct (canTryNextService _)|].
  simpl.
  set (w1 := emit _ (log _ _ (bumped w))).
  assert (H1 : timersOwned (clearReconnectTimer w1))
    by (apply timersOwned_clearReconnectTimer; by eapply timersOwned_view).
  pose proof (clearReconnectTimer_reconnectTimer w1) as Hr.
  set (w2 := clearReconnectTimer w1) in *.
  intros id t Ht Hl. simpl in *.
  apply (newTimer_lookup Timeout _ w2) in Ht as [->|Ht]; [by right|].
  destruct (H1 id t Ht Hl) as [?|?]; [by left|congruence].
Qed.

Lemma timersOwned_afterSwitch w : timersOwned w → timersOwned (afterSwitch w).
Proof.
  intros H. unfold afterSwitch, moveToNextService. simpl.
  apply timersOwned_cleanup. eapply timersOwned_view; [|exact H].
  unfold timerView. frame.
Qed.

Lemma timersOwned_run_ w : timersOwned w → timersOwned (run_ w).
Proof.
  apply run__preserves; clear w; intros w H.
  - by eapply timersOwned_view.
  - by eapply timersOwned_view.
  - by apply timersOwned_afterSchedule.
  - by eapply timersOwned_view.
  - apply timersOwned_afterSwitch. by eapply timersOwned_view.
Qed.

Lemma timersOwned_scheduleReconnect_ w :
  timersOwned w → timersOwned (scheduleReconnect_ w).
Proof.
  apply scheduleReconnect__preserves; clear w; intros w H.
  - by eapply timersOwned_view.
  - by eapply timersOwned_view.
  - by apply timersOwned_afterSchedule.
  - by eapply timersOwned_view.
  - apply timersOwned_afterSwitch. by eapply timersOwned_view.
Qed.

Lemma timersOwned_updSock id f w : timersOwned w → timersOwned (updSock id f w).
Proof. intros H. eapply timersOwned_view; [|exact H]. unfold timerView. frame. Qed.

Lemma timersOwned_notify id h w :
  (∀ w, timersOwned w → timersOwned (h w)) →
  timersOwned w → timersOwned (notify id h w).
Proof. intros Hh H. unfold notify. destruct (listening id w); auto. Qed.

Lemma timersOwned_onOpen w : timersOwned w → timersOwned (onOpen w).
Proof.
  intros H. unfold onOpen.
  eapply (timersOwned_view (startHeartbeat _)); [done|].
  apply timersOwned_startHeartbeat. by eapply timersOwned_view.
Qed.

Lemma timersOwned_onClose code reason w :
  timersOwned w → timersOwned (onClose code reason w).
Proof.
  intros H. unfold onClose.
  set (w1 := emit _ (stopHeartbeat _)).
  assert (H1 : timersOwned w1).
  { eapply (timersOwned_view (stopHeartbeat _)); [done|].
    apply timersOwned_stopHeartbeat. by eapply timersOwned_view. }
  destruct (shouldReconnect (conn w1)); [|done].
  by apply timersOwned_scheduleReconnect_.
Qed.

Lemma timersOwned_deliver ev w : timersOwned w → timersOwned (deliver ev w).
Proof.
  intros H.
  destruct ev as [id|id data now|id error|id code reason|id]; simpl.
  - destruct (sockState id w); try done.
    apply timersOwned_notify; [apply timersOwned_onOpen|].
    by apply timersOwned_updSock.
  - destruct (sockState id w); try done;
      (apply timersOwned_notify; [|done]);
      intros w' H'; by eapply timersOwned_view.
  - destruct (sockState id w); try done;
      (apply timersOwned_notify; [|by apply timersOwned_updSock]);
      intros w' H'; by eapply timersOwned_view.
  - destruct (sockState id w); try done;
      (apply timersOwned_notify; [|by apply timersOwned_updSock]);
      intros w' H'; by apply timersOwned_onClose.
  - destruct (timers w !! id) as [t|]; [|done].
    destruct (timerLive t); [|done].
    destruct (timerKind t).
    + eapply timersOwned_view; [|exact H]. unfold timerView, onPing. frame.
    + unfold onReconnectTimer.
      by apply timersOwned_run_, timersOwned_cleanup, timersOwned_clearTimer.
Qed.

Lemma timersOwned_close w : timersOwned w → timersOwned (close w).
Proof.
  intros H. unfold close.
  set (w1 := clearReconnectTimer _).
  assert (H1 : timersOwned w1).
  { apply timersOwned_clearReconnectTimer, timersOwned_stopHeartbeat.
    by eapply timersOwned_view. }
  destruct (ws (conn w1)); [|done].
  eapply timersOwned_view; [|exact H1]. unfold timerView. frame.
Qed.

Lemma timersOwned_act a w : timersOwned w → timersOwned (act a w).
Proof.
  intros H. destruct a as [| |data|params| |ev|ref o]; simpl.
  - unfold connect. destruct (_ || _); [by eapply timersOwned_view|].
    apply timersOwned_run_. by eapply timersOwned_view.
  - by apply timersOwned_close.
  - eapply timersOwned_view; [|exact H]. unfold timerView, send. frame.
  - unfold updateParams. apply timersOwned_run_.
    eapply (timersOwned_view (cleanup _)); [done|].
    apply timersOwned_cleanup. by eapply timersOwned_view.
  - by eapply timersOwned_view.
  - by apply timersOwned_deliver.
  - by eapply timersOwned_view.
Qed.

Lemma timersOwned_reachable w : reachable w → timersOwned w.
Proof.
  intros (options & e & h & l & ->).
  induction l as [|a l IH] using rev_ind.
  - intros id t Ht. unfold newConnection in Ht.
    destruct (service options); simpl in Ht; by rewrite lookup_nil in Ht.
  - rewrite acts_snoc. by apply timersOwned_act.
Qed.

(** With no timer held, an owned timer is dead. *)
Lemma timersOwned_noLiveTimers w :
  timersOwned w → pingTimer (conn w) = None → reconnectTimer (conn w) = None →
  noLiveTimers w = true.
Proof.
  intros H Hp Hr. unfold noLiveTimers. apply forallb_forall.
  intros t [id Ht]%list_elem_of_In%list_elem_of_lookup.
  destruct (timerLive t) eqn:Hl; [|done].
  destruct (H id t Ht Hl); congruence.
Qed.

Lemma close_settled w : timersOwned w → settled (close w).
Proof.
  intros H. pose proof (timersOwned_close w H) as Hc.
  assert (Hf : shouldReconnect (conn (close w)) = false ∧
               pingTimer (conn (close w)) = None ∧
               reconnectTimer (conn (close w)) = None).
  { unfold close. frame. }
  destruct Hf as (Hs & Hp & Hr). split_and!; try done.
  by apply timersOwned_noLiveTimers.
Qed.

Lemma updSock_length id f w : length (socks (updSock id f w)) = length (socks w).
Proof. unfold updSock. destruct (socks w !! id); [|done]. simpl. apply length_insert. Qed.

Lemma noLiveTimers_lookup w id t :
  noLiveTimers w = true → timers w !! id = Some t → timerLive t = false.
Proof.
  unfold noLiveTimers. rewrite forallb_forall. intros H Ht.
  apply negb_true_iff, H, list_elem_of_In, list_elem_of_lookup. eauto.
Qed.

Lemma settled_onMessage data now w :
  settled w → settled (onMessage data now w).
Proof. done. Qed.

Lemma settled_onError error w : settled w → settled (onError error w).
Proof. done. Qed.

Lemma settled_onClose code reason w :
  settled w →
  onClose code reason w
  = emit (EvtClose code (utf8Decode (env w) reason))
      (upd (set_isConnecting false) (log INFO "WebSocket disconnected" w)).
Proof.
  intros (Hs & Hp & _). unfold onClose, stopHeartbeat. simpl.
  rewrite Hp. simpl. by rewrite Hs.
Qed.

(** Once [close] has run, an event other than ["open"] leaves the manager
    settled, opens no socket and announces no reconnection. *)
Lemma settled_deliver ev w :
  settled w → isOpen ev = false →
  settled (deliver ev w) ∧
  length (socks (deliver ev w)) = length (socks w) ∧
  ∃ es, trace (deliver ev w) = trace w ++ es ∧ filter isReconnectEffect es = [].
Proof.
  intros Hw Hev.
  assert (Hid : settled w ∧ length (socks w) = length (socks w) ∧
                ∃ es, trace w = trace w ++ es ∧ filter isReconnectEffect es = []).
  { split_and!; try done. exists []. by rewrite app_nil_r. }
  destruct ev as [id|id data now|id error|id code reason|id]; simpl; [done|..].
  - unfold notify. destruct (sockState id w); try done;
      (destruct (listening id w); [|done]);
      (split_and!; [done|done|by eexists [_]]).
  - assert (Hu : settled (updSock id (set_readyState CLOSING) w)).
    { unfold settled, noLiveTimers in *. unfold updSock.
      by destruct (socks w !! id). }
    assert (Ht : trace (updSock id (set_readyState CLOSING) w) = trace w).
    { unfold updSock. by destruct (socks w !! id). }
    unfold notify. destruct (sockState id w); try done;
      (destruct (listening id _);
       [simpl; rewrite updSock_length, Ht, <- app_assoc;
        split_and!; [done|done|by eexists]
       |rewrite updSock_length, Ht; split_and!; try done;
        exists []; by rewrite app_nil_r]).
  - assert (Hu : settled (updSock id (set_readyState CLOSED) w)).
    { unfold settled, noLiveTimers in *. unfold updSock.
      by destruct (socks w !! id). }
    assert (Ht : trace (updSock id (set_readyState CLOSED) w) = trace w).
    { unfold updSock. by destruct (socks w !! id). }
    unfold notify. destruct (sockState id w); try done;
      (destruct (listening id _);
       [rewrite settled_onClose by done; simpl;
        rewrite updSock_length, Ht, <- app_assoc;
        split_and!; [done|done|by eexists]
       |rewrite updSock_length, Ht; split_and!; try done;
        exists []; by rewrite app_nil_r]).
  - destruct (timers w !! id) as [t|] eqn:Ht; [|done].
    destruct Hw as (_ & _ & _ & Hn).
    by rewrite (noLiveTimers_lookup w id t Hn Ht).
Qed.

(** ** [close] *)

Lemma set_shouldReconnect_id c :
  shouldReconnect c = false → set_shouldReconnect false c = c.
Proof. destruct c. simpl. by intros ->. Qed.

Lemma with_conn_id w : with_conn (conn w) w = w.
Proof. by destruct w. Qed.

Lemma closing_of_idemp r : closing_of (closing_of r) = closing_of r.
Proof. by destruct r. Qed.

Lemma wsClose_socks_idemp id w :
  socks (wsClose id (wsClose id w)) = socks (wsClose id w).
Proof.
  unfold wsClose, updSock. simpl.
  destruct (socks w !! id) as [s|] eqn:Hs; simpl; [|by rewrite Hs].
  rewrite list_lookup_insert_eq by (by eapply lookup_lt_Some). simpl.
  rewrite list_insert_insert_eq, closing_of_idemp. done.
Qed.

Lemma wsClose_socks_congr id w w' :
  socks w = socks w' → socks (wsClose id w) = socks (wsClose id w').
Proof.
  intros H. unfold wsClose, updSock. simpl. rewrite H.
  by destruct (socks w' !! id).
Qed.

(** Where the manager is settled, [close] only asks the socket to close. *)
Lemma close_when_settled w :
  shouldReconnect (conn w) = false → pingTimer (conn w) = None →
  reconnectTimer (conn w) = None →
  close w = match ws (conn w) with
            | Some id => wsClose id w
            | None => w
            end.
Proof.
  intros Hs Hp Hr. unfold close, stopHeartbeat. simpl. rewrite Hp.
  unfold clearReconnectTimer. simpl. rewrite Hr. simpl. unfold upd.
  by rewrite set_shouldReconnect_id, with_conn_id.
Qed.

Lemma close_handles w :
  shouldReconnect (conn (close w)) = false ∧ pingTimer (conn (close w)) = None ∧
  reconnectTimer (conn (close w)) = None ∧ ws (conn (close w)) = ws (conn w).
Proof. unfold close. frame. Qed.

Lemma close_socks w :
  socks (close w) = match ws (conn w) with
                    | Some id => socks (wsClose id w)
                    | None => socks w
                    end.
Proof.
  unfold close.
  set (w' := clearReconnectTimer _).
  assert (Hs : socks w' = socks w) by (subst w'; frame).
  assert (Hw : ws (conn w') = ws (conn w)) by (subst w'; frame).
  rewrite Hw. destruct (ws (conn w)) as [id|]; [|done].
  unfold wsClose, updSock. simpl. rewrite Hs.
  by destruct (socks w !! id).
Qed.

Lemma close_idempotent w :
  conn (close (close w)) = conn (close w) ∧
  socks (close (close w)) = socks (close w) ∧
  timers (close (close w)) = timers (close w) ∧
  heap (close (close w)) = heap (close w) ∧
  ∃ es, trace (close (close w)) = trace (close w) ++ es ∧
        emittedBy es = [] ∧ filter isReconnectEffect es = [].
Proof.
  destruct (close_handles w) as (Hs & Hp & Hr & Hws).
  rewrite (close_when_settled (close w)) by done. rewrite Hws.
  destruct (ws (conn w)) as [id|] eqn:Hw.
  - split_and!; try done.
    + unfold wsClose, updSock. simpl. by destruct (socks (close w) !! id).
    + assert (Hsock : socks (close w) = socks (wsClose id w))
        by (by rewrite close_socks, Hw).
      by rewrite (wsClose_socks_congr id _ _ Hsock), wsClose_socks_idemp.
    + unfold wsClose, updSock. simpl. by destruct (socks (close w) !! id).
    + unfold wsClose, updSock. simpl. by destruct (socks (close w) !! id).
    + exists [EWsClose id]. split; [|done].
      unfold wsClose, updSock. simpl. by destruct (socks (close w) !! id).
  - split_and!; try done. exists []. by rewrite app_nil_r.
Qed.

Lemma settled_events evs : ∀ w,
  settled w → forallb (fun ev => negb (isOpen ev)) evs = true →
  let w' := acts (AEnv <$> evs) w in
  settled w' ∧ length (socks w') = length (socks w) ∧
  ∃ es, trace w' = trace w ++ es ∧ filter isReconnectEffect es = [].
Proof.
  induction evs as [|ev evs IH]; intros w Hw Hevs w'; subst w'.
  { split_and!; try done. exists []. by rewrite app_nil_r. }
  simpl in Hevs. apply andb_true_iff in Hevs as [Hev Hevs].
  apply negb_true_iff in Hev.
  destruct (settled_deliver ev w Hw Hev) as (H1 & Hl1 & es1 & Ht1 & Hf1).
  change (acts (AEnv <$> ev :: evs) w)
    with (acts (AEnv <$> evs) (deliver ev w)).
  destruct (IH (deliver ev w) H1 Hevs) as (H2 & Hl2 & es2 & Ht2 & Hf2).
  split_and!; [done|by rewrite Hl2|].
  exists (es1 ++ es2). rewrite Ht2, Ht1, <- app_assoc, filter_app, Hf1, Hf2. done.
Qed.

(** C5, as the code has it: a second [close] changes nothing of the manager,
    the sockets, the timers or the heap, and emits nothing; [close] on a
    new connection only turns [shouldReconnect] (which starts as [true]) to
    [false]; and after [close] in any reachable state no timer is live, and
    events of the environment other than ["open"] (closes, errors, messages,
    timers) leave it so, keep [shouldReconnect] false, open no socket and
    announce no reconnection. *)
Theorem close_is_idempotent_and_final :
  (∀ w : World,
     conn (close (close w)) = conn (close w) ∧
     socks (close (close w)) = socks (close w) ∧
     timers (close (close w)) = timers (close w) ∧
     heap (close (close w)) = heap (close w) ∧
     ∃ es, trace (close (close w)) = trace (close w) ++ es ∧
           emittedBy es = [] ∧ filter isReconnectEffect es = []) ∧
  (∀ options e h,
     close (newConnection options e h)
     = upd (set_shouldReconnect false) (newConnection options e h)) ∧
  (∀ (w : World) (evs : list EnvEvent),
     reachable w → forallb (fun ev => negb (isOpen ev)) evs = true →
     let w1 := close w in
     let w2 := acts (AEnv <$> evs) w1 in
     noLiveTimers w1 = true ∧ noLiveTimers w2 = true ∧
     shouldReconnect (conn w2) = false ∧
     length (socks w2) = length (socks w1) ∧
     ∃ es, trace w2 = trace w1 ++ es ∧ filter isReconnectEffect es = []).
Proof.
  split_and!.
  - apply close_idempotent.
  - intros options e h. unfold newConnection.
    by destruct (service options).
  - intros w evs Hw Hevs w1 w2.
    pose proof (close_settled w (timersOwned_reachable w Hw)) as H1.
    destruct (settled_events evs w1 H1 Hevs) as (H2 & Hl & Hes).
    split_and!; try done; [apply H1|apply H2|apply H2].
Qed.

Lemma close_is_idempotent_and_final_witness :
  noLiveTimers (acts [AEnv (WsClose 0 1000 [])] (close sampleOpen)) = true ∧
  shouldReconnect (conn (acts [AEnv (WsClose 0 1000 [])] (close sampleOpen))) = false.
Proof.
  assert (Hr : reachable sampleOpen).
  { exists sampleOptions, sampleEnv, [], [AConnect; AEnv (WsOpen 0)]. reflexivity. }
  pose proof (proj2 (proj2 close_is_idempotent_and_final) sampleOpen
                [WsClose 0 1000 []] Hr eq_refl) as H.
  cbv zeta in H. split; apply H.
Defined.

(** C5 as stated fails for [close] before any [connect]: it is not a no-op,
    since it withdraws the wish to reconnect that a new connection starts
    with; a socket opened by [updateParams] that then fails is retried
    without the [close] and is not retried with it. *)
Lemma close_before_connect_counterexample :
  close sampleWorld ≠ sampleWorld ∧
  filter isReconnectEffect (trace (acts failedUpdate (close sampleWorld)))
  ≠ filter isReconnectEffect (trace (acts failedUpdate sampleWorld)).
Proof.
  split.
  - intros H. apply (f_equal (fun w => shouldReconnect (conn w))) in H.
    discriminate H.
  - intros H. apply (f_equal length) in H. vm_compute in H. discriminate H.
Qed.

(** ** Timers by kind: at most one heartbeat, at most one pending retry *)

Lemma timersByKind_view w w' :
  timerView w' = timerView w → timersByKind w → timersByKind w'.
Proof.
  unfold timerView, timersByKind. intros [= Ht Hp Hr] H id t.
  rewrite Ht, Hp, Hr. apply H.
Qed.

Lemma clearTimer_conn id w : conn (clearTimer id w) = conn w.
Proof. frame. Qed.

Lemma timersByKind_clearTimer id w : timersByKind w → timersByKind (clearTimer id w).
Proof.
  intros H id' t Ht Hl. apply clearTimer_lookup in Ht as [_ Ht]; [|done].
  rewrite clearTimer_conn. exact (H id' t Ht Hl).
Qed.

Lemma timersByKind_stopHeartbeat w : timersByKind w → timersByKind (stopHeartbeat w).
Proof.
  intros H. unfold stopHeartbeat.
  destruct (pingTimer (conn w)) as [id|] eqn:Hp; [|done].
  intros id' t Ht Hl. simpl in *.
  apply clearTimer_lookup in Ht as [Hne Ht]; [|done].
  rewrite clearTimer_conn. specialize (H id' t Ht Hl).
  destruct (timerKind t); [congruence|done].
Qed.

Lemma timersByKind_clearReconnectTimer w :
  timersByKind w → timersByKind (clearReconnectTimer w).
Proof.
  intros H. unfold clearReconnectTimer.
  destruct (reconnectTimer (conn w)) as [id|] eqn:Hp; [|done].
  intros id' t Ht Hl. simpl in *.
  apply clearTimer_lookup in Ht as [Hne Ht]; [|done].
  rewrite clearTimer_conn. specialize (H id' t Ht Hl).
  destruct (timerKind t); [done|congruence].
Qed.

Lemma newTimer_lookup_kind k delay w id t :
  timers (newTimer k delay w).2 !! id = Some t →
  (id = length (timers w) ∧ timerKind t = k) ∨ timers w !! id = Some t.
Proof.
  unfold newTimer. simpl. intros Ht.
  destruct (decide (id < length (timers w))) as [Hlt|Hge].
  - right. by rewrite lookup_app_l in Ht.
  - left. pose proof (lookup_lt_Some _ _ _ Ht) as Hlen.
    rewrite length_app in Hlen. simpl in Hlen.
    assert (id = length (timers w)) as -> by lia. split; [done|].
    rewrite lookup_app_r, Nat.sub_diag in Ht by lia. by injection Ht as <-.
Qed.

Lemma timersByKind_startHeartbeat w : timersByKind w → timersByKind (startHeartbeat w).
Proof.
  intros H%timersByKind_stopHeartbeat. unfold startHeartbeat.
  pose proof (stopHeartbeat_pingTimer w) as Hp.
  set (w1 := stopHeartbeat w) in *. intros id t Ht Hl. simpl in *.
  apply (newTimer_lookup_kind Interval (pingInterval (conn w1)) w1) in Ht
    as [[-> ->]|Ht]; [done|].
  specialize (H id t Ht Hl). destruct (timerKind t); [congruence|done].
Qed.

Lemma timersByKind_cleanup w : timersByKind w → timersByKind (cleanup w).
Proof.
  intros H. unfold cleanup. apply timersByKind_clearReconnectTimer.
  eapply timersByKind_view; [|exact H]. unfold timerView. frame.
Qed.

Lemma timersByKind_afterSchedule w : timersByKind w → timersByKind (afterSchedule w).
Proof.
  intros H. unfold afterSchedule, scheduleReconnect. fold (bumped w).
  change (maxAttempts _ <=? _) with (attemptsExhausted (bumped w)).
  destruct (attemptsExhausted _); [by destruct (canTryNextService _)|].
  simpl.
  set (w1 := emit _ (log _ _ (bumped w))).
  assert (H1 : timersByKind (clearReconnectTimer w1))
    by (apply timersByKind_clearReconnectTimer; by eapply timersByKind_view).
  pose proof (clearReconnectTimer_reconnectTimer w1) as Hr.
  set (w2 := clearReconnectTimer w1) in *.
  intros id t Ht Hl. simpl in *.
  apply (newTimer_lookup_kind Timeout _ w2) in Ht as [[-> ->]|Ht]; [done|].
  specialize (H1 id t Ht Hl). destruct (timerKind t); [done|congruence].
Qed.

Lemma timersByKind_afterSwitch w : timersByKind w → timersByKind (afterSwitch w).
Proof.
  intros H. unfold afterSwitch, moveToNextService. simpl.
  apply timersByKind_cleanup. eapply timersByKind_view; [|exact H].
  unfold timerView. frame.
Qed.

Lemma timersByKind_run_ w : timersByKind w → timersByKind (run_ w).
Proof.
  apply run__preserves; clear w; intros w H.
  - by eapply timersByKind_view.
  - by eapply timersByKind_view.
  - by apply timersByKind_afterSchedule.
  - by eapply timersByKind_view.
  - apply timersByKind_afterSwitch. by eapply timersByKind_view.
Qed.

Lemma timersByKind_scheduleReconnect_ w :
  timersByKind w → timersByKind (scheduleReconnect_ w).
Proof.
  apply scheduleReconnect__preserves; clear w; intros w H.
  - by eapply timersByKind_view.
  - by eapply timersByKind_view.
  - by apply timersByKind_afterSchedule.
  - by eapply timersByKind_view.
  - apply timersByKind_afterSwitch. by eapply timersByKind_view.
Qed.

Lemma timersByKind_notify id h w :
  (∀ w, timersByKind w → timersByKind (h w)) →
  timersByKind w → timersByKind (notify id h w).
Proof. intros Hh H. unfold notify. destruct (listening id w); auto. Qed.

Lemma timersByKind_onOpen w : timersByKind w → timersByKind (onOpen w).
Proof.
  intros H. unfold onOpen.
  eapply (timersByKind_view (startHeartbeat _)); [done|].
  apply timersByKind_startHeartbeat. by eapply timersByKind_view.
Qed.

Lemma timersByKind_onClose code reason w :
  timersByKind w → timersByKind (onClose code reason w).
Proof.
  intros H. unfold onClose.
  set (w1 := emit _ (stopHeartbeat _)).
  assert (H1 : timersByKind w1).
  { eapply (timersByKind_view (stopHeartbeat _)); [done|].
    apply timersByKind_stopHeartbeat. by eapply timersByKind_view. }
  destruct (shouldReconnect (conn w1)); [|done].
  by apply timersByKind_scheduleReconnect_.
Qed.

Lemma timersByKind_updSock id f w : timersByKind w → timersByKind (updSock id f w).
Proof. intros H. eapply timersByKind_view; [|exact H]. unfold timerView. frame. Qed.

Lemma timersByKind_deliver ev w : timersByKind w → timersByKind (deliver ev w).
Proof.
  intros H.
  destruct ev as [id|id data now|id error|id code reason|id]; simpl.
  - destruct (sockState id w); try done.
    apply timersByKind_notify; [apply timersByKind_onOpen|].
    by apply timersByKind_updSock.
  - destruct (sockState id w); try done;
      (apply timersByKind_notify; [|done]);
      intros w' H'; by eapply timersByKind_view.
  - destruct (sockState id w); try done;
      (apply timersByKind_notify; [|by apply timersByKind_updSock]);
      intros w' H'; by eapply timersByKind_view.
  - destruct (sockState id w); try done;
      (apply timersByKind_notify; [|by apply timersByKind_updSock]);
      intros w' H'; by apply timersByKind_onClose.
  - destruct (timers w !! id) as [t|]; [|done].
    destruct (timerLive t); [|done].
    destruct (timerKind t).
    + eapply timersByKind_view; [|exact H]. unfold timerView, onPing. frame.
    + unfold onReconnectTimer.
      by apply timersByKind_run_, timersByKind_cleanup, timersByKind_clearTimer.
Qed.

Lemma timersByKind_act a w : timersByKind w → timersByKind (act a w).
Proof.
  intros H. destruct a as [| |data|params| |ev|ref o]; simpl.
  - unfold connect. destruct (_ || _); [by eapply timersByKind_view|].
    apply timersByKind_run_. by eapply timersByKind_view.
  - unfold close.
    set (w1 := clearReconnectTimer _).
    assert (H1 : timersByKind w1).
    { apply timersByKind_clearReconnectTimer, timersByKind_stopHeartbeat.
      by eapply timersByKind_view. }
    destruct (ws (conn w1)); [|done].
    eapply timersByKind_view; [|exact H1]. unfold timerView. frame.
  - eapply timersByKind_view; [|exact H]. unfold timerView, send. frame.
  - unfold updateParams. apply timersByKind_run_.
    eapply (timersByKind_view (cleanup _)); [done|].
    apply timersByKind_cleanup. by eapply timersByKind_view.
  - by eapply timersByKind_view.
  - by apply timersByKind_deliver.
  - by eapply timersByKind_view.
Qed.

Lemma timersByKind_new options e h : timersByKind (newConnection options e h).
Proof.
  intros id t Ht. unfold newConnection in Ht.
  destruct (service options); simpl in Ht; by rewrite lookup_nil in Ht.
Qed.

(** ** The tallies of the steps of [run] *)

Arguments cleanup : simpl never.
Arguments clearReconnectTimer : simpl never.
Arguments stopHeartbeat : simpl never.
Arguments run_ : simpl never.
Arguments scheduleReconnect_ : simpl never.

Lemma attemptsMade_app es1 es2 :
  attemptsMade (es1 ++ es2) = attemptsMade es1 + attemptsMade es2.
Proof. unfold attemptsMade. by rewrite List.filter_app, length_app. Qed.

Lemma switchesMade_app es1 es2 :
  switchesMade (es1 ++ es2) = switchesMade es1 + switchesMade es2.
Proof. unfold switchesMade. by rewrite List.filter_app, length_app. Qed.

Lemma retriesAnnounced_app es1 es2 :
  retriesAnnounced (es1 ++ es2) = retriesAnnounced es1 ++ retriesAnnounced es2.
Proof. apply omap_app. Qed.

Lemma ledger_app w w' es :
  trace w' = trace w ++ es →
  ledger w' = (attemptsMade (trace w) + attemptsMade es,
               switchesMade (trace w) + switchesMade es,
               retriesAnnounced (trace w) ++ retriesAnnounced es).
Proof.
  intros H. unfold ledger.
  by rewrite H, attemptsMade_app, switchesMade_app, retriesAnnounced_app.
Qed.

Lemma ledger_same w w' es :
  trace w' = trace w ++ es →
  attemptsMade es = 0 → switchesMade es = 0 → retriesAnnounced es = [] →
  ledger w' = ledger w.
Proof.
  intros H H1 H2 H3. rewrite (ledger_app w w' es H), H1, H2, H3.
  unfold ledger. by rewrite !Nat.add_0_r, app_nil_r.
Qed.

Lemma cleanup_trace w :
  ∃ es, trace (cleanup w) = trace w ++ es ∧
        attemptsMade es = 0 ∧ switchesMade es = 0 ∧ retriesAnnounced es = [].
Proof.
  unfold cleanup.
  destruct (ws (conn w)) as [id|] eqn:Hw.
  - destruct (sockState id (removeAllListeners id w)) eqn:Hs.
    + exists [EWsClose id]. split; [|done]. frame.
    + exists [EWsClose id]. split; [|done]. frame.
    + exists []. split; [|done]. rewrite app_nil_r. frame.
    + exists []. split; [|done]. rewrite app_nil_r. frame.
  - exists []. split; [|done]. rewrite app_nil_r. frame.
Qed.

Lemma ledger_cleanup w : ledger (cleanup w) = ledger w.
Proof.
  destruct (cleanup_trace w) as (es & H & H1 & H2 & H3).
  by apply (ledger_same w _ es).
Qed.

Lemma ledger_ctorReturned w :
  ledger (ctorReturned w)
  = (S (attemptsMade (trace w)), switchesMade (trace w), retriesAnnounced (trace w)).
Proof.
  rewrite (ledger_app w _ [ELog INFO "Connecting to WebSocket";
                           ENewWebSocket (getCurrentServiceUrl w)]).
  - simpl. by rewrite Nat.add_1_r, Nat.add_0_r, app_nil_r.
  - unfold ctorReturned, beforeCtor. simpl. by rewrite <- app_assoc.
Qed.

Lemma ledger_ctorFailed w :
  ledger (ctorFailed w)
  = (S (attemptsMade (trace w)), switchesMade (trace w), retriesAnnounced (trace w)).
Proof.
  rewrite (ledger_app w _ [ELog INFO "Connecting to WebSocket";
                           ENewWebSocket (getCurrentServiceUrl w);
                           ELog ERROR "Error creating WebSocket"]).
  - simpl. by rewrite Nat.add_1_r, Nat.add_0_r, app_nil_r.
  - unfold ctorFailed, beforeCtor. simpl. by rewrite <- !app_assoc.
Qed.

Lemma clearReconnectTimer_trace w : trace (clearReconnectTimer w) = trace w.
Proof. frame. Qed.

Lemma clearReconnectTimer_frame w :
  length (timers (clearReconnectTimer w)) = length (timers w) ∧
  socks (clearReconnectTimer w) = socks w ∧
  conn (clearReconnectTimer w) = set_reconnectTimer None (conn w).
Proof.
  unfold clearReconnectTimer.
  destruct (reconnectTimer (conn w)) as [t|] eqn:Hr.
  - simpl. rewrite clearTimer_conn. unfold clearTimer.
    destruct (timers w !! t); simpl; by rewrite ?length_insert.
  - split_and!; try done. destruct w as [c ? ? ? ? ?]. simpl in *.
    destruct c. simpl in *. by subst.
Qed.

Lemma afterSchedule_waits w :
  attemptsExhausted (bumped w) = false →
  let a := S (reconnectAttempts (conn w)) in
  let rc := reconnectConfig (conn w) in
  ledger (afterSchedule w)
  = (attemptsMade (trace w), switchesMade (trace w),
     retriesAnnounced (trace w) ++ [(a, maxAttempts rc, Math_round (backoffDelay rc a))]) ∧
  conn (afterSchedule w)
  = set_reconnectTimer (Some (length (timers w)))
      (set_reconnectTimer None (conn (bumped w))) ∧
  socks (afterSchedule w) = socks w ∧
  timers (afterSchedule w) !! length (timers w)
  = Some {| timerKind := Timeout; timerDelay := backoffDelay rc a; timerLive := true |}.
Proof.
  intros Hx a rc. unfold afterSchedule, scheduleReconnect. fold (bumped w).
  change (maxAttempts _ <=? _) with (attemptsExhausted (bumped w)).
  rewrite Hx. cbn [default from_option]. cbv zeta. unfold newTimer, ledger. simpl.
  match goal with
  | |- context [clearReconnectTimer ?W] =>
      destruct (clearReconnectTimer_frame W) as (Hlen & Hsocks & Hconn);
      pose proof (clearReconnectTimer_trace W) as Htr;
      remember (clearReconnectTimer W) as X eqn:HX; clear HX
  end.
  simpl in *. rewrite Htr, Hlen, Hsocks, Hconn.
  rewrite <- app_assoc, attemptsMade_app, switchesMade_app, retriesAnnounced_app.
  simpl. rewrite !Nat.add_0_r. split_and!; try done.
  rewrite <- Hlen, lookup_app_r, Nat.sub_diag by done. done.
Qed.

(** ** Sockets after [cleanup] *)

Lemma updSock_lookup id f w id' s :
  socks (updSock id f w) !! id' = Some s →
  ∃ s0, socks w !! id' = Some s0 ∧ s = if decide (id' = id) then f s0 else s0.
Proof.
  unfold updSock. destruct (socks w !! id) as [s1|] eqn:H1; simpl.
  - destruct (decide (id' = id)) as [->|Hne].
    + rewrite list_lookup_insert_eq by (by eapply lookup_lt_Some).
      intros [= <-]. eauto.
    + rewrite list_lookup_insert_ne by done. eauto.
  - intros Hs. exists s. split; [done|]. case_decide; [congruence|done].
Qed.

Lemma updSock_conn id f w : conn (updSock id f w) = conn w.
Proof. frame. Qed.

Lemma cleanup_socks_lookup w id s :
  socks (cleanup w) !! id = Some s →
  ∃ s0, socks w !! id = Some s0 ∧
        ((ws (conn w) = Some id ∧ hasListeners s = false) ∨
         (ws (conn w) ≠ Some id ∧ s = s0)).
Proof.
  unfold cleanup.
  destruct (clearReconnectTimer_frame
    (match ws (conn w) with
     | Some id0 =>
         upd (set_ws None)
           (match sockState id0 (removeAllListeners id0 w) with
            | CONNECTING | OPEN => wsClose id0 (removeAllListeners id0 w)
            | _ => removeAllListeners id0 w
            end)
     | None => w
     end)) as (_ & -> & _).
  destruct (ws (conn w)) as [id0|]; [|intros; exists s; split; [done|by right]].
  assert (Hrm : ∀ s1, socks (removeAllListeners id0 w) !! id = Some s1 →
    ∃ s0, socks w !! id = Some s0 ∧
          ((id0 = id ∧ hasListeners s1 = false) ∨ (id0 ≠ id ∧ s1 = s0))).
  { intros s1 (s0 & H0 & ->)%updSock_lookup. exists s0. split; [done|].
    case_decide; [left|right]; by subst. }
  assert (Hcl : ∀ s1, socks (wsClose id0 (removeAllListeners id0 w)) !! id = Some s1 →
    ∃ s0, socks w !! id = Some s0 ∧
          ((id0 = id ∧ hasListeners s1 = false) ∨ (id0 ≠ id ∧ s1 = s0))).
  { unfold wsClose. intros s1 (s2 & H2 & ->)%updSock_lookup.
    destruct (Hrm s2 H2) as (s0 & H0 & Hor). exists s0. split; [done|].
    case_decide; [|done]. subst. destruct Hor as [[_ ?]|[? _]]; [by left|done]. }
  simpl. intros Hs.
  assert (∃ s0, socks w !! id = Some s0 ∧
          ((id0 = id ∧ hasListeners s = false) ∨ (id0 ≠ id ∧ s = s0)))
    as (s0 & H0 & Hor).
  { destruct (sockState id0 (removeAllListeners id0 w)); simpl in Hs; auto. }
  exists s0. split; [done|].
  destruct Hor as [[-> ?]|[? ?]]; [by left|right]. split; [congruence|done].
Qed.

Lemma cleanup_noneListens w : onlyCurrent w → noneListens (cleanup w).
Proof.
  intros H id s Hs.
  apply cleanup_socks_lookup in Hs as (s0 & H0 & [[_ ?]|[Hne ->]]); [done|].
  destruct (hasListeners s0) eqn:Hl; [|done]. by destruct (Hne (H id s0 H0 Hl)).
Qed.

Lemma noneListens_attemptInFlight w : noneListens w → attemptInFlight w = None.
Proof.
  intros H. unfold attemptInFlight, listening.
  destruct (ws (conn w)) as [id|]; [|done].
  destruct (socks w !! id) as [s|] eqn:Hs; [|done].
  by rewrite (H id s Hs).
Qed.

Lemma cleanup_pre_frame w :
  ledger (cleanup w) = ledger w ∧
  shouldReconnect (conn (cleanup w)) = shouldReconnect (conn w) ∧
  pingTimer (conn (cleanup w)) = pingTimer (conn w) ∧
  isConnecting (conn (cleanup w)) = isConnecting (conn w) ∧
  ws (conn (cleanup w)) = None ∧ reconnectTimer (conn (cleanup w)) = None.
Proof.
  split_and!; auto using ledger_cleanup, cleanup_shouldReconnect,
    cleanup_pingTimer, cleanup_isConnecting, cleanup_ws, cleanup_reconnectTimer.
Qed.

Lemma afterSwitch_eq w : afterSwitch w = cleanup (switching w).
Proof. reflexivity. Qed.

Lemma switching_frame w :
  ledger (switching w)
  = (attemptsMade (trace w), S (switchesMade (trace w)), retriesAnnounced (trace w)) ∧
  shouldReconnect (conn (switching w)) = shouldReconnect (conn w) ∧
  pingTimer (conn (switching w)) = pingTimer (conn w) ∧
  isConnecting (conn (switching w)) = isConnecting (conn w) ∧
  ws (conn (switching w)) = ws (conn w) ∧ socks (switching w) = socks w.
Proof.
  unfold switching. cbv zeta. split_and!; try (by destruct (decide _)).
  erewrite ledger_app; [|simpl; rewrite <- app_assoc; reflexivity].
  simpl. destruct (decide _); simpl;
    by rewrite !Nat.add_0_r, Nat.add_1_r, app_nil_r.
Qed.

Lemma afterSwitch_facts w :
  ledger (afterSwitch w)
  = (attemptsMade (trace w), S (switchesMade (trace w)), retriesAnnounced (trace w)) ∧
  shouldReconnect (conn (afterSwitch w)) = shouldReconnect (conn w) ∧
  pingTimer (conn (afterSwitch w)) = pingTimer (conn w) ∧
  isConnecting (conn (afterSwitch w)) = isConnecting (conn w) ∧
  ws (conn (afterSwitch w)) = None ∧ reconnectTimer (conn (afterSwitch w)) = None ∧
  (onlyCurrent w → noneListens (afterSwitch w)).
Proof.
  rewrite afterSwitch_eq.
  destruct (cleanup_pre_frame (switching w)) as (-> & -> & -> & -> & -> & ->).
  destruct (switching_frame w) as (-> & -> & -> & -> & Hws & Hsocks).
  split_and!; try done.
  intros H. apply cleanup_noneListens. intros id s Hs Hl.
  rewrite Hws. rewrite Hsocks in Hs. by apply (H id s).
Qed.

(** ** Accounting for the attempts of a connection that never opens *)

Lemma retriesFrom_cons rc k :
  k < maxAttempts rc →
  retriesFrom rc k
  = (k, maxAttempts rc, Math_round (backoffDelay rc k)) :: retriesFrom rc (S k).
Proof.
  intros Hk. unfold retriesFrom.
  replace (maxAttempts rc - k) with (S (maxAttempts rc - S k)) by lia. done.
Qed.

Lemma retriesFrom_done rc k : maxAttempts rc ≤ k → retriesFrom rc k = [].
Proof.
  intros Hk. unfold retriesFrom.
  by replace (maxAttempts rc - k) with 0 by lia.
Qed.

Lemma movesLeft_stuck w : canTryNextService w = false → movesLeft w = 0.
Proof. unfold movesLeft, canTryNextService. by intros ->. Qed.

Lemma ledger_inv w a b c :
  ledger w = (a, b, c) →
  attemptsMade (trace w) = a ∧ switchesMade (trace w) = b ∧
  retriesAnnounced (trace w) = c.
Proof. unfold ledger. by intros [= -> -> ->]. Qed.

Lemma attemptInFlight_ctorReturned w :
  attemptInFlight (ctorReturned w) = Some (length (socks w)).
Proof.
  unfold attemptInFlight, ctorReturned, listening, sockState. simpl.
  rewrite lookup_app_r, Nat.sub_diag by done. simpl. done.
Qed.

Lemma listensToCurrent_ctorReturned w :
  noneListens w → listensToCurrent (ctorReturned w).
Proof.
  intros H id s Hs Hl. unfold ctorReturned in *. simpl in *.
  destruct (decide (id < length (socks w))) as [Hlt|Hge].
  - rewrite lookup_app_l in Hs by done. rewrite (H id s Hs) in Hl. done.
  - pose proof (lookup_lt_Some _ _ _ Hs) as Hlen.
    rewrite length_app in Hlen. simpl in Hlen.
    assert (id = length (socks w)) as -> by lia. split; [done|].
    rewrite lookup_app_r, Nat.sub_diag in Hs by done. injection Hs as <-.
    by left.
Qed.

Lemma noneListens_listensToCurrent w : noneListens w → listensToCurrent w.
Proof. intros H id s Hs Hl. by rewrite (H id s Hs) in Hl. Qed.

Lemma listensToCurrent_onlyCurrent w : listensToCurrent w → onlyCurrent w.
Proof. intros H id s Hs Hl. by destruct (H id s Hs Hl). Qed.

(** A state that differs in the trace, the flags and the counters only. *)
Lemma attemptInFlight_view w w' :
  socks w' = socks w → ws (conn w') = ws (conn w) →
  attemptInFlight w' = attemptInFlight w.
Proof.
  intros Hs Hw. unfold attemptInFlight, listening, sockState. by rewrite Hs, Hw.
Qed.

Lemma listensToCurrent_view w w' :
  socks w' = socks w → ws (conn w') = ws (conn w) →
  listensToCurrent w → listensToCurrent w'.
Proof. intros Hs Hw H id s. rewrite Hs, Hw. apply H. Qed.

Lemma timerPending_none w : reconnectTimer (conn w) = None → timerPending w = None.
Proof. unfold timerPending. by intros ->. Qed.

Lemma getServices_eq w w' :
  heap w' = heap w → static w' = static w → getServices w' = getServices w.
Proof.
  unfold getServices, static. intros -> [= -> _ _ _]. done.
Qed.

Lemma movesLeft_eq w w' :
  getServices w' = getServices w →
  reconnectConfig (conn w') = reconnectConfig (conn w) →
  serviceCycles (conn w') = serviceCycles (conn w) →
  serviceIndex (conn w') = serviceIndex (conn w) →
  movesLeft w' = movesLeft w.
Proof. unfold movesLeft. by intros -> -> -> ->. Qed.

Lemma afterSchedule_services w : getServices (afterSchedule w) = getServices w.
Proof.
  destruct (step_heap w) as (_ & _ & Hh & _).
  destruct (step_static w) as (_ & _ & Hs & _).
  by apply getServices_eq.
Qed.

(** [scheduleReconnect] when the service has attempts left: the timer
    is set and the retry announced. *)
Lemma schedule_accounts_wait w :
  readyToSchedule w → attemptsExhausted (bumped w) = false →
  accounts (maxAttempts (reconnectConfig (conn w)) - S (reconnectAttempts (conn w)))
           w (afterSchedule w).
Proof.
  intros (Hsr & Hpt & Htk & Hlc & Hfl & HA & Ha & Hrt & Hic) Hx.
  destruct (afterSchedule_waits w Hx) as (Hled & Hconn & Hsocks & Htimer).
  apply ledger_inv in Hled as (Hn & Hs & Hr).
  assert (Hxa : S (reconnectAttempts (conn w)) < maxAttempts (reconnectConfig (conn w))).
  { unfold attemptsExhausted in Hx. simpl in Hx. by apply Nat.leb_gt in Hx. }
  assert (Hws : ws (conn (afterSchedule w)) = ws (conn w)) by (by rewrite Hconn).
  assert (Hfl' : attemptInFlight (afterSchedule w) = None)
    by (by rewrite (attemptInFlight_view w)).
  assert (Htp : timerPending (afterSchedule w) = Some (length (timers w))).
  { unfold timerPending. rewrite Hconn. simpl. by rewrite Htimer. }
  assert (Hml : movesLeft (afterSchedule w) = movesLeft w).
  { apply movesLeft_eq; [apply afterSchedule_services|by rewrite Hconn..]. }
  assert (Hwait : waiting (afterSchedule w) = true)
    by (unfold waiting; by rewrite Hfl', Htp).
  unfold accounts. split_and!.
  - unfold failing. rewrite Hfl', Htp, Hconn. simpl.
    split_and!; try done.
    + by apply timersByKind_afterSchedule.
    + by apply (listensToCurrent_view w).
  - by rewrite Hconn.
  - unfold owedAttempts. rewrite Hfl', Hwait, Hml, Hn, Hconn. simpl. lia.
  - unfold owedSwitches. by rewrite Hwait, Hml, Hs.
  - unfold owedRetries. rewrite Hwait, Hml, Hr, Hconn. simpl.
    rewrite (retriesFrom_cons _ (S (reconnectAttempts (conn w)))) by done.
    by rewrite <- !app_assoc.
  - lia.
  - rewrite Hfl'. by intros [? ?].
Qed.

(** [scheduleReconnect] when nothing is left to try: it returns, and
    nothing is owed. *)
Lemma schedule_accounts_stop w :
  readyToSchedule w → attemptsExhausted (bumped w) = true →
  canTryNextService (bumped w) = false →
  accounts (maxAttempts (reconnectConfig (conn w)) - S (reconnectAttempts (conn w)))
           w (log ERROR "All services exhausted" (bumped w)).
Proof.
  intros (Hsr & Hpt & Htk & Hlc & Hfl & HA & Ha & Hrt & Hic) Hx Hcan.
  set (w' := log ERROR "All services exhausted" (bumped w)).
  assert (Hxa : maxAttempts (reconnectConfig (conn w)) ≤ S (reconnectAttempts (conn w))).
  { unfold attemptsExhausted in Hx. simpl in Hx. by apply Nat.leb_le in Hx. }
  assert (Hfl' : attemptInFlight w' = None) by (by rewrite (attemptInFlight_view w)).
  assert (Htp : timerPending w' = None) by (by apply timerPending_none).
  assert (Hwait : waiting w' = false) by (unfold waiting; by rewrite Hfl', Htp).
  assert (Hml : movesLeft w = 0) by (by apply (movesLeft_stuck (bumped w))).
  assert (Hled : ledger w' = ledger w).
  { apply (ledger_same w w' [ELog ERROR "All services exhausted"]); done. }
  apply ledger_inv in Hled as (Hn & Hs & Hr).
  unfold accounts. split_and!.
  - unfold failing. rewrite Hfl', Htp.
    split_and!; try done; try (by eapply timersByKind_view).
  - done.
  - unfold owedAttempts. rewrite Hfl', Hwait, Hn, Hml. lia.
  - unfold owedSwitches. by rewrite Hwait, Hs, Hml.
  - unfold owedRetries. by rewrite Hwait, Hr, Hml, retriesFrom_done.
  - lia.
  - rewrite Hfl'. by intros [? ?].
Qed.

(** [scheduleReconnect] after a failure, given that [run] accounts for
    what it owes wherever fewer switches are left. *)
Lemma schedule_accounts n :
  (∀ w, movesLeft w < n → readyToRun w →
        accounts (maxAttempts (reconnectConfig (conn w)) - reconnectAttempts (conn w))
                 w (run_ w) ∧
        attemptsMade (trace w) < attemptsMade (trace (run_ w))) →
  ∀ w, movesLeft w ≤ n → readyToSchedule w →
       accounts (maxAttempts (reconnectConfig (conn w)) - S (reconnectAttempts (conn w)))
                w (scheduleReconnect_ w).
Proof.
  intros Hrun w Hn Hw. rewrite scheduleReconnect__eq.
  destruct (attemptsExhausted (bumped w)) eqn:Hx;
    [|by apply schedule_accounts_wait].
  destruct (canTryNextService (bumped w)) eqn:Hcan;
    [|by apply schedule_accounts_stop].
  destruct Hw as (Hsr & Hpt & Htk & Hlc & Hfl & HA & Ha & Hrt & Hic).
  assert (Hxa : maxAttempts (reconnectConfig (conn w)) ≤ S (reconnectAttempts (conn w))).
  { unfold attemptsExhausted in Hx. simpl in Hx. by apply Nat.leb_le in Hx. }
  pose proof (movesLeft_afterSwitch _ Hcan) as Hml.
  rewrite movesLeft_bumped in Hml.
  destruct (afterSwitch_facts (bumped w)) as (Hled & Hsr1 & Hpt1 & Hic1 & Hws1 & Hrt1 & Hnl).
  apply ledger_inv in Hled as (Hn1 & Hs1 & Hr1). simpl in Hn1, Hs1, Hr1.
  pose proof (afterSwitch_reconnectConfig (bumped w)) as Hrc1.
  pose proof (afterSwitch_reconnectAttempts (bumped w)) as Ha1.
  simpl in Hsr1, Hpt1, Hic1, Hrc1.
  remember (afterSwitch (bumped w)) as w1 eqn:Hw1.
  assert (Hready : readyToRun w1).
  { unfold readyToRun. rewrite Hsr1, Hpt1, Hic1, Hws1, Hrt1, Hrc1, Ha1.
    split_and!; try done; try lia.
    - subst w1. apply timersByKind_afterSwitch. by eapply timersByKind_view.
    - apply Hnl. by apply listensToCurrent_onlyCurrent, (listensToCurrent_view w). }
  destruct (Hrun w1) as ((Hf & Hrc & Hnew & Hsw & Hret & Hle & Hlt) & Hprog);
    [lia|done|].
  rewrite Hrc1, Ha1, Hn1, Hs1, Hr1 in *.
  unfold accounts. split_and!; [done|done| | | |lia|intros _; lia].
  - rewrite Hnew, <- Hml. lia.
  - rewrite Hsw, <- Hml. lia.
  - rewrite Hret, <- Hml.
    rewrite (retriesFrom_done _ (S (reconnectAttempts (conn w)))) by lia. done.
Qed.

Lemma ctorFailed_ready w :
  readyToRun w → readyToSchedule (ctorFailed w).
Proof.
  intros (Hsr & Hpt & Htk & Hnl & HA & Ha & Hws & Hrt & Hic).
  assert (Hnl' : noneListens (ctorFailed w)) by (intros id s; apply Hnl).
  unfold readyToSchedule.
  split_and!;
    [done|done|by eapply timersByKind_view
    |by apply noneListens_listensToCurrent
    |by apply noneListens_attemptInFlight|done..].
Qed.

Lemma ctorReturned_accounts w :
  readyToRun w →
  accounts (maxAttempts (reconnectConfig (conn w)) - reconnectAttempts (conn w))
           w (ctorReturned w) ∧
  attemptsMade (trace w) < attemptsMade (trace (ctorReturned w)).
Proof.
  intros (Hsr & Hpt & Htk & Hnl & HA & Ha & Hws & Hrt & Hic).
  pose proof (ledger_ctorReturned w) as Hled.
  apply ledger_inv in Hled as (Hn & Hs & Hr).
  pose proof (attemptInFlight_ctorReturned w) as Hfl.
  assert (Hwait : waiting (ctorReturned w) = true)
    by (unfold waiting; by rewrite Hfl).
  assert (Hml : movesLeft (ctorReturned w) = movesLeft w) by done.
  split; [|lia]. unfold accounts. split_and!.
  - unfold failing. rewrite Hfl.
    split_and!; try done; try (by eapply timersByKind_view).
    by apply listensToCurrent_ctorReturned.
  - done.
  - unfold owedAttempts. rewrite Hfl, Hml, Hn.
    change (reconnectConfig (conn (ctorReturned w))) with (reconnectConfig (conn w)).
    change (reconnectAttempts (conn (ctorReturned w))) with (reconnectAttempts (conn w)).
    lia.
  - unfold owedSwitches. by rewrite Hwait, Hml, Hs.
  - unfold owedRetries. by rewrite Hwait, Hml, Hr.
  - lia.
  - intros _. lia.
Qed.

(** [run], entered with no socket and no timer by a connection that wants to
    reconnect: whatever the constructor does, the calls, switches and retries
    to come are accounted for. *)
Lemma run_accounts n : ∀ w,
  movesLeft w ≤ n → readyToRun w →
  accounts (maxAttempts (reconnectConfig (conn w)) - reconnectAttempts (conn w))
           w (run_ w) ∧
  attemptsMade (trace w) < attemptsMade (trace (run_ w)).
Proof.
  induction n as [n IH] using lt_wf_ind. intros w Hn Hw.
  pose proof Hw as (Hsr & Hpt & Htk & Hnl & HA & Ha & Hws & Hrt & Hic).
  rewrite run__eq, Hic.
  destruct (wsCtorThrows (env w) (getCurrentServiceUrl w)) as [e|] eqn:Hthrow;
    [|by apply ctorReturned_accounts].
  rewrite Hsr.
  pose proof (ledger_ctorFailed w) as Hled.
  apply ledger_inv in Hled as (Hn1 & Hs1 & Hr1).
  assert (Hsched : accounts
    (maxAttempts (reconnectConfig (conn (ctorFailed w)))
     - S (reconnectAttempts (conn (ctorFailed w))))
    (ctorFailed w) (scheduleReconnect_ (ctorFailed w))).
  { apply (schedule_accounts (movesLeft w)).
    - intros w1 Hlt Hw1. apply (IH (movesLeft w1)); [lia|done|done].
    - by rewrite movesLeft_ctorFailed.
    - by apply ctorFailed_ready. }
  destruct Hsched as (Hf & Hrc & Hnew & Hsw & Hret & Hle & Hlt).
  rewrite movesLeft_ctorFailed, Hn1, Hs1, Hr1 in *.
  change (reconnectConfig (conn (ctorFailed w))) with (reconnectConfig (conn w)) in *.
  change (reconnectAttempts (conn (ctorFailed w))) with (reconnectAttempts (conn w)) in *.
  split; [|lia]. unfold accounts.
  split_and!; [done|done|rewrite Hnew; lia|done|done|lia|intros _; lia].
Qed.

(** ** One failing step *)

Lemma attemptInFlight_Some w id :
  attemptInFlight w = Some id →
  ws (conn w) = Some id ∧ listening id w = true ∧ sockState id w = CONNECTING.
Proof.
  unfold attemptInFlight. destruct (ws (conn w)) as [id'|]; [|done].
  destruct (listening id' w) eqn:Hl; [|done].
  case_bool_decide as Hs; [|done]. by intros [= <-].
Qed.

Lemma listening_updSock_state id r w :
  listening id (updSock id (set_readyState r) w) = listening id w.
Proof.
  unfold listening, updSock. destruct (socks w !! id) as [s|] eqn:Hs; simpl.
  - by rewrite list_lookup_insert_eq by (by eapply lookup_lt_Some).
  - by rewrite Hs.
Qed.

Lemma sockState_updSock_state id r w :
  listening id w = true → sockState id (updSock id (set_readyState r) w) = r.
Proof.
  unfold listening, sockState, updSock.
  destruct (socks w !! id) as [s|] eqn:Hs; [|done]. intros _. simpl.
  by rewrite list_lookup_insert_eq by (by eapply lookup_lt_Some).
Qed.

Lemma stopHeartbeat_none w : pingTimer (conn w) = None → stopHeartbeat w = w.
Proof. unfold stopHeartbeat. by intros ->. Qed.

(** A failed attempt reaches [scheduleReconnect] through the ["close"]
    listener. *)
Lemma failedAttempt_eq f id w :
  attemptInFlight w = Some id → pingTimer (conn w) = None →
  shouldReconnect (conn w) = true →
  deliver (WsClose id (f_code f) (f_reason f)) (deliver (WsError id (f_error f)) w)
  = scheduleReconnect_ (closedAttempt f id w).
Proof.
  intros (Hws & Hl & Hs)%attemptInFlight_Some Hpt Hsr.
  unfold deliver at 2. rewrite Hs. unfold notify.
  rewrite listening_updSock_state, Hl.
  set (w1 := onError (f_error f) (updSock id (set_readyState CLOSING) w)).
  assert (Hl1 : listening id w1 = true)
    by (unfold w1, listening, onError; simpl; fold (listening id (updSock id (set_readyState CLOSING) w));
        by rewrite listening_updSock_state).
  assert (Hs1 : sockState id w1 = CLOSING)
    by (unfold w1, sockState, onError; simpl;
        fold (sockState id (updSock id (set_readyState CLOSING) w));
        by rewrite sockState_updSock_state).
  unfold deliver. rewrite Hs1. unfold notify.
  rewrite listening_updSock_state, Hl1.
  unfold onClose. rewrite stopHeartbeat_none.
  - simpl. rewrite updSock_conn. unfold w1. simpl. rewrite updSock_conn, Hsr.
    unfold closedAttempt. fold w1.
    assert (Henv : ∀ r w0, env (updSock id (set_readyState r) w0) = env w0)
      by (intros; unfold updSock; by destruct (socks _ !! id)).
    rewrite Henv. unfold w1 at 1. unfold onError. simpl. by rewrite Henv.
  - simpl. rewrite updSock_conn. unfold w1. simpl. by rewrite updSock_conn.
Qed.

Lemma closedAttempt_frame f id w :
  conn (closedAttempt f id w) = set_isConnecting false (conn w) ∧
  timers (closedAttempt f id w) = timers w ∧
  heap (closedAttempt f id w) = heap w ∧
  socks (closedAttempt f id w)
  = socks (updSock id (set_readyState CLOSED) (updSock id (set_readyState CLOSING) w)) ∧
  ledger (closedAttempt f id w) = ledger w.
Proof.
  unfold closedAttempt, onError. split_and!.
  - simpl. rewrite !updSock_conn. simpl. rewrite updSock_conn.
    by destruct (conn w).
  - unfold updSock. simpl. repeat case_match; simpl in *; done.
  - unfold updSock. simpl. repeat case_match; simpl in *; done.
  - unfold updSock. simpl. repeat case_match; simpl in *; done.
  - eapply (ledger_same w _ [ELog ERROR "WebSocket error"; EEmit (EvtError (f_error f));
                             ELog INFO "WebSocket disconnected"; EEmit (EvtClose _ _)]);
      [|done..].
    unfold updSock. simpl. repeat case_match; simpl in *; by rewrite <- ?app_assoc.
Qed.

Lemma closedAttempt_socket f id w id' s :
  socks (closedAttempt f id w) !! id' = Some s →
  ∃ s0, socks w !! id' = Some s0 ∧ hasListeners s = hasListeners s0 ∧
        (if decide (id' = id) then readyState s = CLOSED else s = s0).
Proof.
  destruct (closedAttempt_frame f id w) as (_ & _ & _ & -> & _).
  intros (s1 & (s0 & H0 & ->)%updSock_lookup & ->)%updSock_lookup.
  exists s0. split; [done|]. by case_decide.
Qed.

Lemma closedAttempt_ready f id w :
  failing w → attemptInFlight w = Some id →
  readyToSchedule (closedAttempt f id w).
Proof.
  intros (Hsr & Hpt & Htk & Hlc & HA & Hmode) Hfl. rewrite Hfl in Hmode.
  destruct Hmode as (Ha & Hrt & Hic).
  apply attemptInFlight_Some in Hfl as (Hws & Hl & Hs).
  destruct (closedAttempt_frame f id w) as (Hconn & Htimers & Hheap & Hsocks & Hled).
  assert (Hlc' : listensToCurrent (closedAttempt f id w)).
  { intros id' s (s0 & H0 & Hls & Hst)%closedAttempt_socket Hl'.
    rewrite Hls in Hl'. destruct (Hlc id' s0 H0 Hl') as [Hcur Hrs].
    rewrite Hconn. simpl. split; [done|].
    case_decide; [by right|by subst]. }
  unfold readyToSchedule. rewrite Hconn. simpl.
  split_and!; [done|done| |done| |done..].
  - eapply timersByKind_view; [|exact Htk]. unfold timerView.
    by rewrite Htimers, Hconn.
  - unfold attemptInFlight. rewrite Hconn. simpl. rewrite Hws.
    unfold listening, sockState.
    destruct (socks (closedAttempt f id w) !! id) as [s|] eqn:Hsk; [|done].
    apply closedAttempt_socket in Hsk as (s0 & _ & _ & Hst).
    rewrite decide_True in Hst by done. rewrite Hst.
    by destruct (hasListeners s).
Qed.

Lemma closedAttempt_counters f id w :
  movesLeft (closedAttempt f id w) = movesLeft w ∧
  reconnectAttempts (conn (closedAttempt f id w)) = reconnectAttempts (conn w) ∧
  reconnectConfig (conn (closedAttempt f id w)) = reconnectConfig (conn w).
Proof.
  destruct (closedAttempt_frame f id w) as (Hconn & _ & Hheap & _).
  split_and!; try (by rewrite Hconn).
  apply movesLeft_eq; try (by rewrite Hconn).
  unfold getServices. by rewrite Hheap, Hconn.
Qed.

(** The pending delay elapses: [cleanup], then [run]. *)
Lemma timerFired_eq w t :
  timerPending w = Some t →
  deliver (TimerFired t) w = run_ (cleanup (clearTimer t w)).
Proof.
  unfold timerPending, deliver, onReconnectTimer.
  destruct (reconnectTimer (conn w)) as [t'|]; [|done].
  destruct (timers w !! t') as [tm|] eqn:Htm; [|done].
  destruct (timerKind tm) eqn:Hk; [done|].
  destruct (timerLive tm) eqn:Hlv; [|done]. intros [= <-].
  by rewrite Htm, Hlv, Hk.
Qed.

Lemma clearTimer_frame t w :
  conn (clearTimer t w) = conn w ∧ socks (clearTimer t w) = socks w ∧
  heap (clearTimer t w) = heap w ∧ trace (clearTimer t w) = trace w.
Proof. unfold clearTimer. by destruct (timers w !! t). Qed.

Lemma timerFired_ready w t :
  failing w → attemptInFlight w = None → timerPending w = Some t →
  let w1 := cleanup (clearTimer t w) in
  readyToRun w1 ∧ ledger w1 = ledger w ∧ movesLeft w1 = movesLeft w ∧
  reconnectAttempts (conn w1) = reconnectAttempts (conn w) ∧
  reconnectConfig (conn w1) = reconnectConfig (conn w).
Proof.
  intros (Hsr & Hpt & Htk & Hlc & HA & Hmode) Hfl Htp w1.
  rewrite Hfl, Htp in Hmode. destruct Hmode as (Hic & Ha).
  destruct (clearTimer_frame t w) as (Hconn & Hsocks & Hheap & Htrace).
  destruct (cleanup_pre_frame (clearTimer t w)) as (Hled & Hsr1 & Hpt1 & Hic1 & Hws1 & Hrt1).
  assert (Hrc : reconnectConfig (conn w1) = reconnectConfig (conn w))
    by (unfold w1; by rewrite cleanup_reconnectConfig, Hconn).
  assert (Hat : reconnectAttempts (conn w1) = reconnectAttempts (conn w))
    by (unfold w1; by rewrite cleanup_reconnectAttempts, Hconn).
  split_and!; try done.
  - unfold readyToRun. fold w1 in Hsr1, Hpt1, Hic1, Hws1, Hrt1.
    rewrite Hsr1, Hpt1, Hic1, Hws1, Hrt1, Hrc, Hat, Hconn.
    split_and!; try done.
    + by apply timersByKind_cleanup, timersByKind_clearTimer.
    + apply cleanup_noneListens. intros id s. rewrite Hsocks, Hconn.
      intros Hs Hl. by destruct (Hlc id s Hs Hl).
  - unfold w1. rewrite Hled. unfold ledger. by rewrite Htrace.
  - unfold w1. rewrite movesLeft_cleanup. apply movesLeft_eq; try (by rewrite Hconn).
    unfold getServices. by rewrite Hheap, Hconn.
Qed.

Lemma schedule_accounts_any w :
  readyToSchedule w →
  accounts (maxAttempts (reconnectConfig (conn w)) - S (reconnectAttempts (conn w)))
           w (scheduleReconnect_ w).
Proof.
  intros Hw. apply (schedule_accounts (movesLeft w)); [|done|done].
  intros w1 Hlt Hw1. by apply (run_accounts (movesLeft w1)).
Qed.

(** A failing step keeps the sums of what was done and what is owed, and
    lowers the measure. *)
Lemma failStep_accounts f w w' :
  failing w → failStep f w = Some w' →
  failing w' ∧ reconnectConfig (conn w') = reconnectConfig (conn w) ∧
  attemptsMade (trace w') + owedAttempts w' = attemptsMade (trace w) + owedAttempts w ∧
  switchesMade (trace w') + owedSwitches w' = switchesMade (trace w) + owedSwitches w ∧
  retriesAnnounced (trace w') ++ owedRetries w'
  = retriesAnnounced (trace w) ++ owedRetries w ∧
  failMeasure w' < failMeasure w.
Proof.
  intros Hw Hstep. unfold failStep in Hstep.
  pose proof Hw as (Hsr & Hpt & Htk & Hlc & HA & Hmode).
  destruct (attemptInFlight w) as [id|] eqn:Hfl.
  - assert (w' = deliver (WsClose id (f_code f) (f_reason f))
                     (deliver (WsError id (f_error f)) w)) as -> by congruence.
    clear Hstep. destruct Hmode as (Ha & Hrt & Hic).
    rewrite (failedAttempt_eq f id w Hfl Hpt Hsr).
    pose proof (schedule_accounts_any _ (closedAttempt_ready f id w Hw Hfl))
      as (Hf & Hrc & Hnew & Hsw & Hret & Hle & Hlt).
    destruct (closedAttempt_counters f id w) as (Hml & Hat & Hrc0).
    destruct (closedAttempt_frame f id w) as (_ & _ & _ & _ & Hled).
    apply ledger_inv in Hled as (Hn0 & Hs0 & Hr0).
    rewrite Hml, Hat, Hrc0, Hn0, Hs0, Hr0 in *.
    assert (Hwait : waiting w = true) by (unfold waiting; by rewrite Hfl).
    unfold owedAttempts at 2, owedSwitches at 2, owedRetries at 2, failMeasure.
    rewrite Hfl, Hwait.
    split_and!; [done|done|lia|done|done|].
    set (w' := scheduleReconnect_ (closedAttempt f id w)) in *.
    unfold owedAttempts at 2. rewrite Hfl.
    destruct (attemptInFlight w') eqn:Hfl'; [|lia].
    assert (attemptsMade (trace w) < attemptsMade (trace w')) by (apply Hlt; eauto).
    lia.
  - destruct (timerPending w) as [t|] eqn:Htp; [|done].
    assert (w' = deliver (TimerFired t) w) as -> by congruence.
    clear Hstep. rewrite (timerFired_eq w t Htp).
    destruct (timerFired_ready w t Hw Hfl Htp) as (Hready & Hled & Hml & Hat & Hrc0).
    apply ledger_inv in Hled as (Hn0 & Hs0 & Hr0).
    pose proof (run_accounts _ _ (le_n _) Hready)
      as ((Hf & Hrc & Hnew & Hsw & Hret & Hle & Hlt) & Hprog).
    rewrite Hml, Hat, Hrc0, Hn0, Hs0, Hr0 in *.
    assert (Hwait : waiting w = true) by (unfold waiting; by rewrite Hfl, Htp).
    unfold owedAttempts at 2, owedSwitches at 2, owedRetries at 2, failMeasure.
    rewrite Hfl, Hwait. destruct Hmode as (Hic & Ha).
    split_and!; [done|done|lia|done|done|].
    unfold owedAttempts at 2. rewrite Hfl, Hwait.
    destruct (attemptInFlight (run_ _)); lia.
Qed.

Lemma failStep_None f w :
  failStep f w = None →
  waiting w = false ∧ owedAttempts w = 0 ∧ owedSwitches w = 0 ∧ owedRetries w = [].
Proof.
  unfold failStep, owedAttempts, owedSwitches, owedRetries, waiting.
  destruct (attemptInFlight w); [done|].
  by destruct (timerPending w).
Qed.

(** With fuel for the measure, the failing steps end, and then what was
    owed has been done. *)
Lemma failAll_accounts f fuel : ∀ w,
  failing w → failMeasure w < fuel →
  let w' := failAll f fuel w in
  failing w' ∧ failStep f w' = None ∧
  reconnectConfig (conn w') = reconnectConfig (conn w) ∧
  attemptsMade (trace w') = attemptsMade (trace w) + owedAttempts w ∧
  switchesMade (trace w') = switchesMade (trace w) + owedSwitches w ∧
  retriesAnnounced (trace w') = retriesAnnounced (trace w) ++ owedRetries w.
Proof.
  induction fuel as [|fuel IH]; intros w Hw Hfuel; [lia|]. simpl.
  destruct (failStep f w) as [w1|] eqn:Hstep.
  - destruct (failStep_accounts f w w1 Hw Hstep)
      as (Hw1 & Hrc & Hnew & Hsw & Hret & Hlt).
    destruct (IH w1 Hw1) as (Hf & Hend & Hrc' & Hn & Hs & Hr); [lia|].
    split_and!; [done|done|congruence|lia|lia|].
    by rewrite Hr, Hret.
  - destruct (failStep_None f w Hstep) as (_ & -> & -> & ->).
    split_and!; try done; try lia. by rewrite app_nil_r.
Qed.

(** ** After giving up *)

Lemma failing_givenUp f w : failing w → failStep f w = None → givenUp w.
Proof.
  intros (Hsr & Hpt & Htk & Hlc & HA & Hmode) Hstep.
  unfold failStep in Hstep.
  destruct (attemptInFlight w) as [id|] eqn:Hfl; [done|].
  destruct (timerPending w) as [t|] eqn:Htp; [done|].
  destruct Hmode as (Hic & Hrt). split.
  - unfold noLiveTimers. apply forallb_forall.
    intros t [id Ht]%list_elem_of_In%list_elem_of_lookup.
    destruct (timerLive t) eqn:Hl; [|done].
    specialize (Htk id t Ht Hl). destruct (timerKind t); congruence.
  - intros id s Hs Hl. destruct (Hlc id s Hs Hl) as [Hws [Hst|Hst]]; [|done].
    unfold attemptInFlight, listening, sockState in Hfl.
    rewrite Hws, Hs, Hl, Hst in Hfl. done.
Qed.

Lemma givenUp_updSock id r w :
  givenUp w → listening id w = false → givenUp (updSock id (set_readyState r) w).
Proof.
  intros [Hnt Hcl] Hl. split.
  - unfold noLiveTimers, updSock in *. by destruct (socks w !! id).
  - intros id' s (s0 & H0 & ->)%updSock_lookup Hl'.
    case_decide as Heq; [|by apply (Hcl id')]. subst id'.
    unfold listening in Hl. rewrite H0 in Hl. simpl in Hl'. congruence.
Qed.

Lemma givenUp_listening_closed id w :
  givenUp w → listening id w = true → sockState id w = CLOSED.
Proof.
  intros [_ Hcl]. unfold listening, sockState.
  destruct (socks w !! id) as [s|] eqn:Hs; [|done]. intros Hl. by apply (Hcl id).
Qed.

(** Once the manager has given up, no event of the environment reaches it:
    its fields, its timers and its trace stay as they are. *)
Lemma givenUp_deliver ev w :
  givenUp w →
  givenUp (deliver ev w) ∧ conn (deliver ev w) = conn w ∧
  timers (deliver ev w) = timers w ∧ trace (deliver ev w) = trace w.
Proof.
  intros Hw.
  assert (Hquiet : ∀ id r, listening id w = false →
    givenUp (updSock id (set_readyState r) w) ∧
    conn (updSock id (set_readyState r) w) = conn w ∧
    timers (updSock id (set_readyState r) w) = timers w ∧
    trace (updSock id (set_readyState r) w) = trace w).
  { intros id r Hl. split; [by apply givenUp_updSock|].
    unfold updSock. by destruct (socks w !! id). }
  destruct ev as [id|id data now|id error|id code reason|id]; unfold deliver.
  - destruct (listening id w) eqn:Hl.
    + by rewrite (givenUp_listening_closed id w Hw Hl).
    + destruct (sockState id w); try done.
      unfold notify. rewrite listening_updSock_state, Hl. by apply Hquiet.
  - destruct (listening id w) eqn:Hl.
    + by rewrite (givenUp_listening_closed id w Hw Hl).
    + unfold notify. rewrite Hl. by destruct (sockState id w).
  - destruct (listening id w) eqn:Hl.
    + by rewrite (givenUp_listening_closed id w Hw Hl).
    + unfold notify. rewrite listening_updSock_state, Hl.
      destruct (sockState id w); try done; by apply Hquiet.
  - destruct (listening id w) eqn:Hl.
    + by rewrite (givenUp_listening_closed id w Hw Hl).
    + unfold notify. rewrite listening_updSock_state, Hl.
      destruct (sockState id w); try done; by apply Hquiet.
  - destruct (timers w !! id) as [t|] eqn:Ht; [|done].
    destruct Hw as [Hnt Hcl].
    by rewrite (noLiveTimers_lookup w id t Hnt Ht).
Qed.

Lemma givenUp_events evs : ∀ w,
  givenUp w →
  let w' := acts (AEnv <$> evs) w in
  givenUp w' ∧ conn w' = conn w ∧ timers w' = timers w ∧ trace w' = trace w.
Proof.
  induction evs as [|ev evs IH]; intros w Hw w'; subst w'; [done|].
  destruct (givenUp_deliver ev w Hw) as (H1 & Hc & Ht & Hr).
  change (acts (AEnv <$> ev :: evs) w) with (acts (AEnv <$> evs) (deliver ev w)).
  destruct (IH (deliver ev w) H1) as (H2 & Hc2 & Ht2 & Hr2).
  split_and!; congruence.
Qed.

(** ** A connection that never opens *)

Lemma newConnection_fresh options e h :
  let w0 := newConnection options e h in
  socks w0 = [] ∧ timers w0 = [] ∧ trace w0 = [] ∧ ws (conn w0) = None ∧
  pingTimer (conn w0) = None ∧ reconnectTimer (conn w0) = None ∧
  isConnecting (conn w0) = false ∧ reconnectAttempts (conn w0) = 0 ∧
  serviceIndex (conn w0) = 0 ∧ serviceCycles (conn w0) = 0.
Proof. unfold newConnection. by destruct (service options). Qed.

Lemma connect_fresh options e h :
  connect (newConnection options e h)
  = run_ (upd (set_shouldReconnect true) (newConnection options e h)).
Proof.
  destruct (newConnection_fresh options e h) as (_ & _ & _ & Hws & _ & _ & Hic & _).
  unfold connect, getState. by rewrite Hic, Hws.
Qed.

Lemma movesLeft_fresh options e h :
  let w0 := newConnection options e h in
  movesLeft w0
  = if 1 <? length (getServices w0)
    then length (getServices w0) * maxServiceCycles (reconnectConfig (conn w0))
    else 0.
Proof.
  intros w0.
  destruct (newConnection_fresh options e h) as (_ & _ & _ & _ & _ & _ & _ & _ & Hi & Hc).
  unfold movesLeft. fold w0 in Hi, Hc. rewrite Hi, Hc.
  destruct (1 <? length (getServices w0)) eqn:HE; [|done]. simpl.
  rewrite Nat.Div0.mod_0_l, Nat.sub_0_r.
  destruct (0 <? _) eqn:HC.
  - lia.
  - apply Nat.ltb_ge in HC. lia.
Qed.

(** A connection on which [connect] is called and no socket ever opens
    makes one round of [maxAttempts] constructor calls on the first service and
    on each service it switches to, announces [maxAttempts - 1] retries in
    each round, and then gives up for good. *)
Lemma never_opening_totals options e h f fuel :
  let w0 := newConnection options e h in
  let rc := reconnectConfig (conn w0) in
  1 ≤ maxAttempts rc →
  2 * maxAttempts rc * S (movesLeft w0) ≤ fuel →
  let w := failAll f fuel (connect w0) in
  failStep f w = None ∧ givenUp w ∧
  attemptsMade (trace w) = S (movesLeft w0) * maxAttempts rc ∧
  switchesMade (trace w) = movesLeft w0 ∧
  retriesAnnounced (trace w) = concat (replicate (S (movesLeft w0)) (retriesFrom rc 1)).
Proof.
  intros w0 rc HA Hfuel w. subst w.
  assert (Hc : connect w0 = run_ (upd (set_shouldReconnect true) w0))
    by apply connect_fresh.
  rewrite Hc. clear Hc.
  destruct (newConnection_fresh options e h)
    as (Hsocks & Htimers & Htrace & Hws & Hpt & Hrt & Hic & Ha & _).
  fold w0 in Hsocks, Htimers, Htrace, Hws, Hpt, Hrt, Hic, Ha.
  set (w1 := upd (set_shouldReconnect true) w0).
  assert (Hready : readyToRun w1).
  { unfold readyToRun, w1. simpl. rewrite Hpt, Hws, Hrt, Hic, Ha.
    split_and!; try done; try (fold rc; lia).
    - eapply timersByKind_view; [|apply (timersByKind_new options e h)]. done.
    - intros id s. simpl. fold w0. by rewrite Hsocks, lookup_nil. }
  destruct (run_accounts _ _ (le_n _) Hready)
    as ((Hf & Hrc & Hnew & Hsw & Hret & _) & Hprog).
  change (movesLeft w1) with (movesLeft w0) in *.
  change (reconnectConfig (conn w1)) with rc in *.
  change (reconnectAttempts (conn w1)) with (reconnectAttempts (conn w0)) in *.
  change (trace w1) with (trace w0) in *.
  rewrite Ha, Htrace in *. simpl in Hnew, Hsw, Hret.
  assert (Hmeasure : failMeasure (run_ w1) < fuel).
  { unfold failMeasure.
    assert (owedAttempts (run_ w1) < maxAttempts rc * S (movesLeft w0)) by lia.
    destruct (attemptInFlight (run_ w1)); lia. }
  destruct (failAll_accounts f fuel (run_ w1) Hf Hmeasure)
    as (Hf' & Hend & Hrc' & Hn & Hs & Hr).
  split_and!; [done|by eapply failing_givenUp| | |].
  - rewrite Hn, Hnew. lia.
  - by rewrite Hs, Hsw.
  - by rewrite Hr, Hret.
Qed.
